(** * WAANVERSE_MAILER: the delivery engine of [waanverse_mailer/email_service.py]

    A shallow embedding of [EnhancedEmailService] and the properties of its
    validator, connection cache and send strategies.

    Conventions of the embedding:
    - a Python [str] is a [string], its characters those of [ascii]; where
      the code looks at single characters the string is read as its list of
      characters. The address pattern is made of ASCII ranges, so a character
      beyond them fails its sets whatever its code;
    - a Python [dict] with string keys is a [gmap string _];
    - a method of the service is a function in the monad [M], which threads
      the service instance together with the outside world and the journal
      of observable effects, and which may end in a raised exception;
    - Django's mail and template machinery, [logging] and [time] are outside
      the repository: their behaviour is a parameter ([backend]) and each
      call to them leaves an [event] in the journal. *)

From Stdlib Require Import Ascii String List ZArith Lia Bool Permutation.
From stdpp Require Import gmap strings list pretty.

Import ListNotations.
Open Scope string_scope.
Open Scope list_scope.

(** ** Exceptions and results *)

Inductive exn :=
| ValueError (msg : string)
| KeyError (key : string)
| IndexError
| TypeError
| OverflowError (msg : string)
| Foreign (what : string).   (* raised by a collaborator: SMTP, template, OS *)

Inductive outcome (A : Type) :=
| Ok (a : A)
| Raise (e : exn).
Arguments Ok {A} a.
Arguments Raise {A} e.

(** ** Regular expressions, as far as [re] is used by the service *)

Module Re.

(** An item of a bracket expression: [a-z] or a single character. *)
Inductive item :=
| Range (lo hi : ascii)
| Single (c : ascii).

Inductive regex :=
| Bol                               (* ^ *)
| Eol                               (* $ *)
| Lit (c : ascii)                   (* an escaped or plain character *)
| Set_ (cs : list item)             (* [...] *)
| Rep (lo : nat) (cs : list item)   (* [...]{lo,} ; + is {1,} *)
| Cat (r1 r2 : regex).

Definition code (c : ascii) : nat := nat_of_ascii c.

Definition item_mem (c : ascii) (i : item) : bool :=
  match i with
  | Range lo hi => Nat.leb (code lo) (code c) && Nat.leb (code c) (code hi)
  | Single d => Ascii.eqb c d
  end.

Definition mem (cs : list item) (c : ascii) : bool := existsb (item_mem c) cs.

Definition newline : ascii := "010"%char.

(** [$] without MULTILINE: the end of the string, or just before a newline
    that is the last character of the string. *)
Definition at_end (s : list ascii) : bool :=
  match s with
  | [] => true
  | [c] => Ascii.eqb c newline
  | _ => false
  end.

(** Greedy repetition with backtracking: take one more character when the
    set allows it, and fall back to the continuation once [lo] are taken. *)
Fixpoint rep (cs : list item) (k : nat -> list ascii -> bool)
         (lo pos : nat) (s : list ascii) : bool :=
  match s with
  | c :: s' =>
      (mem cs c && rep cs k (pred lo) (S pos) s') || (Nat.eqb lo 0 && k pos s)
  | [] => Nat.eqb lo 0 && k pos []
  end.

(** The backtracking matcher: [exec r k pos s] runs [r] on the rest [s] of
    the subject, [pos] characters in, and hands what is left to [k]. *)
Fixpoint exec (r : regex) (k : nat -> list ascii -> bool)
         (pos : nat) (s : list ascii) : bool :=
  match r with
  | Bol => Nat.eqb pos 0 && k pos s
  | Eol => at_end s && k pos s
  | Lit c =>
      match s with
      | x :: s' => Ascii.eqb x c && k (S pos) s'
      | [] => false
      end
  | Set_ cs =>
      match s with
      | x :: s' => mem cs x && k (S pos) s'
      | [] => false
      end
  | Rep lo cs => rep cs k lo pos s
  | Cat r1 r2 => exec r1 (exec r2 k) pos s
  end.

(** [Pattern.match(string)]: the match starts at index 0 and need not reach
    the end of the string; the result is read for its truth value. *)
Definition py_match (r : regex) (s : list ascii) : bool :=
  exec r (fun _ _ => true) 0 s.

(** What a pattern denotes: [den r pos s pos' s'] when [r], applied [pos]
    characters into the subject with [s] left, can consume up to [s']. *)
Inductive den : regex -> nat -> list ascii -> nat -> list ascii -> Prop :=
| den_bol s : den Bol 0 s 0 s
| den_eol pos s : at_end s = true -> den Eol pos s pos s
| den_lit c pos s : den (Lit c) pos (c :: s) (S pos) s
| den_set cs c pos s : mem cs c = true -> den (Set_ cs) pos (c :: s) (S pos) s
| den_rep lo cs pos w s :
    lo <= length w -> Forall (fun c => mem cs c = true) w ->
    den (Rep lo cs) pos (w ++ s) (pos + length w) s
| den_cat r1 r2 p0 s0 p1 s1 p2 s2 :
    den r1 p0 s0 p1 s1 -> den r2 p1 s1 p2 s2 -> den (Cat r1 r2) p0 s0 p2 s2.

(** A string matches a pattern when the pattern can be applied at its start. *)
Definition Matches (r : regex) (s : list ascii) : Prop :=
  exists pos' s', den r 0 s pos' s'.

End Re.

(** ** Strings *)

(** [str.split(sep)] for a one-character separator. *)
Fixpoint split (sep : ascii) (s : list ascii) : list (list ascii) :=
  match s with
  | [] => [[]]
  | c :: s' =>
      if Ascii.eqb c sep then [] :: split sep s'
      else match split sep s' with
           | h :: t => (c :: h) :: t
           | [] => [[c]]
           end
  end.

(** [l[i]] on a list. *)
Definition index {A} (l : list A) (i : nat) : outcome A :=
  match nth_error l i with
  | Some x => Ok x
  | None => Raise IndexError
  end.

Definition chars (s : string) : list ascii := list_ascii_of_string s.

(** ** The recipient validator *)

Section Validator.
Import Re.

(** [r"^[a-zA-Z0-9._%+-]+@[a-zA-Z0-9.-]+\.[a-zA-Z]{2,}$"] *)
Definition email_regex : regex :=
  Cat Bol
 (Cat (Rep 1 [Range "a" "z"; Range "A" "Z"; Range "0" "9"; Single ".";
              Single "_"; Single "%"; Single "+"; Single "-"])
 (Cat (Lit "@")
 (Cat (Rep 1 [Range "a" "z"; Range "A" "Z"; Range "0" "9"; Single ".";
              Single "-"])
 (Cat (Lit ".")
 (Cat (Rep 2 [Range "a" "z"; Range "A" "Z"])
      Eol))))).

(** The body of the [try] of [validate_email], for a regex engine that may
    itself raise. [and] is short-circuit. *)
Definition validate_email_try (engine : regex -> list ascii -> outcome bool)
           (email : string) : outcome bool :=
  match engine email_regex (chars email) with
  | Raise e => Raise e
  | Ok false => Ok false
  | Ok true =>
      if negb (Nat.leb (String.length email) 254) then Ok false
      else match index (split "@" (chars email)) 0 with
           | Raise e => Raise e
           | Ok local => Ok (Nat.leb (length local) 64)
           end
  end.

Definition validate_email_with (engine : regex -> list ascii -> outcome bool)
           (email : string) : bool :=
  if String.eqb email "" then false
  else match validate_email_try engine email with
       | Ok b => b
       | Raise _ => false     (* except Exception: return False *)
       end.

Definition re_engine (r : regex) (s : list ascii) : outcome bool :=
  Ok (py_match r s).

Definition validate_email (email : string) : bool :=
  validate_email_with re_engine email.

End Validator.

(** ** Values, messages and configuration *)

(** [Dict[str, Any]] of template variables; the values are opaque to the
    service and stand here as strings. *)
Abbreviation context := (gmap string string).

(** A value stored in a failed-recipient record. *)
Inductive value :=
| VStr (s : string)
| VDict (d : context).

Global Instance value_eq_dec : EqDecision value.
Proof. solve_decision. Defined.

(** A failed-recipient record is a [dict]. *)
Abbreviation pydict := (gmap string value).

(** The handle returned by [django.core.mail.get_connection]. *)
Definition conn := nat.

(** [EmailMultiAlternatives], with the fields the service sets. *)
Record message := {
  msg_subject : string;
  msg_body : string;
  msg_from_email : string;
  msg_to : list string;
  msg_connection : conn;
  msg_alternatives : list (string * string);
  msg_attachments : list string;
  msg_extra_headers : gmap string string
}.

(** [EmailConfig], filled from [email_config] when the module is loaded. *)
Record EmailConfig := {
  BATCH_SIZE : Z;
  RETRY_ATTEMPTS : Z;
  RETRY_DELAY : Z;
  MAX_RECIPIENTS : Z;
  THREAD_POOL_SIZE : Z;
  MAX_EMAIL_BODY_SIZE : Z;
  TIMEOUT : Z
}.

(** The parts of [waanverse_mailer.config.settings.email_config] and of
    [django.conf.settings] that the service reads at call time. *)
Record Settings := {
  email_threading_enabled : bool;
  platform_name : string;
  platform_address : string;
  platform_contact_email : string;
  unsubscribe_link : string;
  EMAIL_HOST_USER : string;
  EMAIL_HOST_PASSWORD : string;
  DEFAULT_FROM_EMAIL : string
}.

(** ** The journal of observable effects *)

Inductive logmsg :=
| ConnectionFailed (e : exn)
| UnexpectedError (recipient : string) (e : exn)
| UnknownType (event_type : string)
| TransactionalFailed (e : exn)
| ThreadFailed (e : exn)
| SentOk (n : nat) (subject : string)
| SendFailed (e : exn) (subject template : string) (n : nat)
| BatchFailed (batch : list string) (e : exn)
| RetryOk (recipient : value)
| RetryFailed (attempt retries : Z) (recipient : value) (e : exn).

Inductive level := Error | Info.

(** A call to a collaborator is journalled with what it raised, if anything. *)
Inductive event :=
| EvLog (l : level) (m : logmsg)            (* logger.error / logger.info *)
| EvConnect (r : option exn)                (* get_connection(...) *)
| EvRender (path : string) (r : option exn) (* render_to_string(path, context) *)
| EvBuild (to : list string)                (* EmailMultiAlternatives(...) *)
| EvAttach (path : string) (r : option exn) (* msg.attach_file(path) *)
| EvSend (m : message) (r : option exn)     (* email_message.send() *)
| EvSendMessages (ms : list message) (r : option exn)
                                            (* with connection: send_messages(ms) *)
| EvThreadStart (ms : list message)         (* EmailThread(self, ms).start() *)
| EvSubmit (recipient : string)             (* executor.submit(self.send_email, ...) *)
| EvSleep (d : Z).                          (* time.sleep(d) *)


Definition is_sleep (e : event) : bool :=
  match e with EvSleep _ => true | _ => false end.

Definition is_connect (e : event) : bool :=
  match e with EvConnect _ => true | _ => false end.

(** A transport call: a message handed to the mail backend, on this thread or
    on a thread started for it. *)
Definition is_transport (e : event) : bool :=
  match e with
  | EvSend _ _ | EvSendMessages _ _ | EvThreadStart _ => true
  | _ => false
  end.

(** A step of building a message. *)
Definition is_build (e : event) : bool :=
  match e with
  | EvRender _ _ | EvBuild _ | EvAttach _ _ | EvConnect _ => true
  | _ => false
  end.

(** ** The collaborators *)

(** What Django answers, as functions of a world [W] that they may change. *)
Record backend (W : Type) := {
  get_connection : string -> string -> Z -> W -> outcome conn * W;
  render_to_string : string -> context -> W -> outcome string * W;
  strip_tags : string -> string;
  attach_file : string -> W -> outcome unit * W;
  message_send : message -> W -> outcome Z * W;
  send_messages : conn -> list message -> W -> outcome Z * W
}.
Arguments get_connection {W}.
Arguments render_to_string {W}.
Arguments strip_tags {W}.
Arguments attach_file {W}.
Arguments message_send {W}.
Arguments send_messages {W}.

(** ** The state and its monad *)

Record state (W : Type) := {
  _connection : option conn;     (* self._connection *)
  world : W;
  journal : list event
}.
Arguments _connection {W}.
Arguments world {W}.
Arguments journal {W}.
Arguments Build_state {W}.

Definition M (W A : Type) : Type := state W -> outcome A * state W.

Definition ret {W A} (a : A) : M W A := fun st => (Ok a, st).

Definition raise {W A} (e : exn) : M W A := fun st => (Raise e, st).

Definition bind {W A B} (m : M W A) (f : A -> M W B) : M W B :=
  fun st =>
    match m st with
    | (Ok a, st') => f a st'
    | (Raise e, st') => (Raise e, st')
    end.

(** [try: m except Exception as e: h e] *)
Definition try_except {W A} (m : M W A) (h : exn -> M W A) : M W A :=
  fun st =>
    match m st with
    | (Ok a, st') => (Ok a, st')
    | (Raise e, st') => h e st'
    end.

Declare Scope py_scope.
Delimit Scope py_scope with py.
Notation "x <- m ;; k" := (bind m (fun x => k))
  (at level 100, m at next level, right associativity) : py_scope.
Notation "m ;;; k" := (bind m (fun _ => k))
  (at level 100, right associativity) : py_scope.
Open Scope py_scope.

Definition emit {W} (e : event) : M W unit :=
  fun st => (Ok tt, Build_state (_connection st) (world st) (journal st ++ [e])).

Definition lift_outcome {W A} (o : outcome A) : M W A := fun st => (o, st).

Definition raised {A} (o : outcome A) : option exn :=
  match o with Ok _ => None | Raise e => Some e end.

(** A call to a collaborator: it runs on the world and is journalled. *)
Definition call {W A} (ev : option exn -> event) (f : W -> outcome A * W) : M W A :=
  fun st =>
    let (r, w) := f (world st) in
    (r, Build_state (_connection st) w (journal st ++ [ev (raised r)])).

Fixpoint mapM {W A B} (f : A -> M W B) (l : list A) : M W (list B) :=
  match l with
  | [] => ret []
  | x :: l' => y <- f x ;; ys <- mapM f l' ;; ret (y :: ys)
  end.

(** [for x in l: body(acc, x)] with the loop variables in [acc]. *)
Fixpoint foldM {W A S} (body : S -> A -> M W S) (l : list A) (acc : S) : M W S :=
  match l with
  | [] => ret acc
  | x :: l' => acc' <- body acc x ;; foldM body l' acc'
  end.

(** [str(e)] *)
Definition str_exn (e : exn) : string :=
  match e with
  | ValueError m => m
  | KeyError k => "'" +:+ k +:+ "'"
  | IndexError => "list index out of range"
  | TypeError => "type error"
  | OverflowError m => m
  | Foreign w => w
  end.

Definition capture {W A} (m : M W A) : M W (outcome A) :=
  fun st => let (r, st') := m st in (Ok r, st').

(** [range(start, stop, step)] as the list of its values. *)
Definition py_range (start stop step : Z) : outcome (list Z) :=
  if (step =? 0)%Z then Raise (ValueError "range() arg 3 must not be zero")
  else if (0 <? step)%Z then
    Ok (map (fun k => (start + Z.of_nat k * step)%Z)
            (seq 0 (Z.to_nat ((stop - start + step - 1) / step))))
  else
    Ok (map (fun k => (start + Z.of_nat k * step)%Z)
            (seq 0 (Z.to_nat ((start - stop - step - 1) / (- step))))).

(** [l[lo:hi]] for indices that are not negative. *)
Definition slice {A} (l : list A) (lo hi : Z) : list A :=
  firstn (Z.to_nat (hi - lo)) (skipn (Z.to_nat lo) l).

Definition getitem (d : pydict) (k : string) : outcome value :=
  match d !! k with
  | Some v => Ok v
  | None => Raise (KeyError k)
  end.

(** The records are typed by use: an entry of the wrong kind is taken to
    fail, with [TypeError], where it is handed to the message builder. *)
Definition as_str (v : value) : outcome string :=
  match v with VStr s => Ok s | VDict _ => Raise TypeError end.

Definition as_dict (v : value) : outcome context :=
  match v with VDict d => Ok d | VStr _ => Raise TypeError end.

(** [str.replace(a, b)] for single characters. *)
Fixpoint replace (a b : ascii) (s : string) : string :=
  match s with
  | EmptyString => EmptyString
  | String c s' => String (if Ascii.eqb c a then b else c) (replace a b s')
  end.

Definition is_lower (c : ascii) : bool :=
  Nat.leb 97 (nat_of_ascii c) && Nat.leb (nat_of_ascii c) 122.
Definition is_upper (c : ascii) : bool :=
  Nat.leb 65 (nat_of_ascii c) && Nat.leb (nat_of_ascii c) 90.
Definition to_upper (c : ascii) : ascii :=
  if is_lower c then ascii_of_nat (nat_of_ascii c - 32) else c.
Definition to_lower (c : ascii) : ascii :=
  if is_upper c then ascii_of_nat (nat_of_ascii c + 32) else c.

(** [str.title()] on the letters of ASCII: a letter that follows a letter is
    lowered, any other letter is raised. *)
Fixpoint title_from (prev_cased : bool) (s : string) : string :=
  match s with
  | EmptyString => EmptyString
  | String c s' =>
      if is_lower c || is_upper c
      then String (if prev_cased then to_lower c else to_upper c) (title_from true s')
      else String c (title_from false s')
  end.
Definition title (s : string) : string := title_from false s.

(** The aggregate returned by [parallel_email_send]. *)
Record results := {
  total_recipients : nat;
  valid_recipients : nat;
  successful_sends : nat;
  failed_sends : nat;
  failed_recipients : list string
}.

(** ** Notions used to state the properties *)

(** The part of a string before the first occurrence of [sep]; all of it when
    [sep] does not occur. *)
Fixpoint before (sep : ascii) (s : list ascii) : list ascii :=
  match s with
  | [] => []
  | c :: s' => if Ascii.eqb c sep then [] else c :: before sep s'
  end.

(** The local part of an address: what stands before the first [@]. *)
Definition local_part (email : string) : list ascii := before "@" (chars email).

(** The three character sets of the address pattern. *)
Definition local_char (c : ascii) : Prop :=
  is_lower c = true \/ is_upper c = true \/
  (Nat.leb 48 (nat_of_ascii c) && Nat.leb (nat_of_ascii c) 57 = true) \/
  In c ["."; "_"; "%"; "+"; "-"]%char.
Definition domain_char (c : ascii) : Prop :=
  is_lower c = true \/ is_upper c = true \/
  (Nat.leb 48 (nat_of_ascii c) && Nat.leb (nat_of_ascii c) 57 = true) \/
  In c ["."; "-"]%char.
Definition letter (c : ascii) : Prop :=
  is_lower c = true \/ is_upper c = true.

(** The address grammar as the pattern is meant, the whole string from its
    first to its last character: a local part, an [@], a domain, a dot and a
    top-level name of two letters or more. Nothing follows the top-level
    name. *)
Definition well_formed_address (s : list ascii) : Prop :=
  exists local domain tld,
    s = local ++ "@"%char :: domain ++ "."%char :: tld /\
    local <> [] /\ Forall local_char local /\
    domain <> [] /\ Forall domain_char domain /\
    2 <= length tld /\ Forall letter tld.

(** Consecutive chunks of [n] items, in order; the last one may be shorter. *)
Fixpoint chunks_fuel {A} (fuel n : nat) (l : list A) : list (list A) :=
  match fuel, l with
  | 0, _ | _, [] => []
  | S fuel', _ :: _ => firstn n l :: chunks_fuel fuel' n (skipn n l)
  end.
Definition chunks {A} (n : nat) (l : list A) : list (list A) :=
  chunks_fuel (length l) n l.

(** What the journal says of a run. *)
Definition batches_sent (j : list event) : list (list string * option exn) :=
  flat_map (fun e => match e with
                     | EvSendMessages ms r => [(flat_map msg_to ms, r)]
                     | _ => []
                     end) j.
Definition is_thread_start (e : event) : bool :=
  match e with EvThreadStart _ => true | _ => false end.
Definition is_send (e : event) : bool :=
  match e with EvSend _ _ => true | _ => false end.
(** The addresses an event is about. *)
Definition addressees (e : event) : list string :=
  match e with
  | EvSubmit x => [x]
  | EvBuild to => to
  | EvSend m _ => msg_to m
  | EvSendMessages ms _ | EvThreadStart ms => flat_map msg_to ms
  | _ => []
  end.
Definition submitted (j : list event) : list string :=
  flat_map (fun e => match e with EvSubmit x => [x] | _ => [] end) j.

(** The events of building one message for the recipients [to] and of
    sending it on its own. *)
Definition ev_build (to : list string) (e : event) : Prop :=
  match e with
  | EvRender _ _ | EvConnect _ | EvAttach _ _
  | EvLog Error (ConnectionFailed _) => True
  | EvBuild t => t = to
  | _ => False
  end.
Definition ev_single (to : list string) (e : event) : Prop :=
  match e with
  | EvSend m _ => msg_to m = to
  | EvThreadStart ms => Forall (fun m => msg_to m = to) ms
  | EvLog Info (SentOk _ _) | EvLog Error (SendFailed _ _ _ _) => True
  | _ => ev_build to e
  end.

Definition count_events (f : event -> bool) (j : list event) : nat :=
  length (List.filter f j).

(** [st'] is [st] after the events [new]. *)
Definition after {W} (st : state W) (new : list event) (st' : state W) : Prop :=
  journal st' = journal st ++ new.


(** A dict with the two keys of the records of [send_batch_emails]. *)
Definition batch_record (d : pydict) : Prop :=
  dom d = ({["recipient"; "error"]} : gset string).

(** [emits P Q m]: whatever [m] journals satisfies [P], the journal only
    grows, and a returned value satisfies [Q]. *)
Definition emits {W A} (P : event -> Prop) (Q : A -> Prop) (m : M W A) : Prop :=
  forall st r st',
    m st = (r, st') ->
    (exists new, after st new st' /\ Forall P new) /\
    (forall a, r = Ok a -> Q a).

(** An address the validator accepts. *)
Definition accepted (x : string) : Prop := validate_email x = true.

(** An event of a send task for accepted addresses. *)
Definition task_event (e : event) : Prop :=
  Forall accepted (addressees e) /\ submitted [e] = [].

(** The log entry with which [send_email] ends a call. *)
Definition is_send_log (e : event) : bool :=
  match e with
  | EvLog _ (SentOk _ _) | EvLog _ (SendFailed _ _ _ _) => true
  | _ => false
  end.

(** A record with the four entries that the retry loop reads. *)
Definition complete_record (d : pydict) : Prop :=
  exists subject template ctx recipient,
    d !! "subject" = Some (VStr subject) /\
    d !! "template_name" = Some (VStr template) /\
    d !! "context" = Some (VDict ctx) /\
    d !! "recipient" = Some (VStr recipient).


(** The service holds a connection. *)
Definition cached {W} (st : state W) : Prop := exists c, _connection st = Some c.

(** A run from [st] to [st'] that journals [new] calls [get_connection] at
    most once, and not at all when it starts with a connection, which it then
    keeps. *)
Definition connects_once {W} (st : state W) (new : list event) (st' : state W)
  : Prop :=
  after st new st' /\
  count_events is_connect new <= 1 /\
  (cached st -> cached st' /\ count_events is_connect new = 0).

(** ** A scripted world, for running the service on examples *)

Module Demo.

(** The world counts the transport calls made so far; [send_ok] tells
    which of them succeed. *)
Definition scripted (connect_ok : bool) (send_ok : nat -> bool) : backend nat := {|
  get_connection := fun _ _ _ w =>
    (if connect_ok then Ok 7 else Raise (Foreign "connection refused"), w);
  render_to_string := fun path _ w => (Ok ("<p>" +:+ path +:+ "</p>"), w);
  strip_tags := fun html => html;
  attach_file := fun _ w => (Ok tt, w);
  message_send := fun _ w =>
    (if send_ok w then Ok 1%Z else Raise (Foreign "SMTP error"), S w);
  send_messages := fun _ ms w =>
    (if send_ok w then Ok (Z.of_nat (length ms)) else Raise (Foreign "SMTP error"), S w)
|}.

Definition config : EmailConfig := {|
  BATCH_SIZE := 2; RETRY_ATTEMPTS := 3; RETRY_DELAY := 5;
  MAX_RECIPIENTS := 3; THREAD_POOL_SIZE := 4;
  MAX_EMAIL_BODY_SIZE := 10 * 1024 * 1024; TIMEOUT := 30
|}.

Definition settings (threading : bool) : Settings := {|
  email_threading_enabled := threading;
  platform_name := "Waanverse";
  platform_address := "Kampala";
  platform_contact_email := "support@waanverse.com";
  unsubscribe_link := "https://waanverse.com/unsubscribe";
  EMAIL_HOST_USER := "mailer";
  EMAIL_HOST_PASSWORD := "secret";
  DEFAULT_FROM_EMAIL := "noreply@waanverse.com"
|}.

Definition fresh : state nat :=
  {| _connection := None; world := 0; journal := [] |}.

Definition always (b : bool) : nat -> bool := fun _ => b.

(** Four worlds: all is well; no connection can be made; the second
    transport call fails; every transport call fails. *)
Definition ok : backend nat := scripted true (always true).
Definition down : backend nat := scripted false (always true).
Definition second_fails : backend nat := scripted true (fun w => negb (Nat.eqb w 1)).
Definition failing : backend nat := scripted true (always false).

(** A world without templates, and a configuration with another batch size. *)
Definition no_template : backend nat := {|
  get_connection := fun _ _ _ w => (Ok 7, w);
  render_to_string := fun _ _ w => (Raise (Foreign "TemplateDoesNotExist"), w);
  strip_tags := fun html => html;
  attach_file := fun _ w => (Ok tt, w);
  message_send := fun _ w => (Ok 1%Z, S w);
  send_messages := fun _ ms w => (Ok (Z.of_nat (length ms)), S w)
|}.

Definition config_batch (n : Z) : EmailConfig := {|
  BATCH_SIZE := n; RETRY_ATTEMPTS := 3; RETRY_DELAY := 5;
  MAX_RECIPIENTS := 3; THREAD_POOL_SIZE := 4;
  MAX_EMAIL_BODY_SIZE := 10 * 1024 * 1024; TIMEOUT := 30
|}.

Definition threads_on : Settings := settings true.
Definition threads_off : Settings := settings false.

Definition scenario_a : list string :=
  ["user1@example.com"; "user2@example.com"; "invalid-email"].

Definition ctx : context := <["username" := "TestUser"]> ∅.

Definition five : list string :=
  ["a@example.com"; "b@example.com"; "c@example.com"; "d@example.com";
   "e@example.com"].

(** A record with everything the retry loop reads. *)
Definition retry_record (recipient : string) : pydict :=
  <["subject" := VStr "Hello"]>
 (<["template_name" := VStr "welcome_email"]>
 (<["context" := VDict ctx]>
 (<["recipient" := VStr recipient]>
 (<["error" := VStr "SMTP error"]> ∅)))).

Definition three_records : list pydict :=
  [retry_record "a@example.com"; retry_record "b@example.com";
   retry_record "c@example.com"].

(** A renderer that shows two entries of the context it is given, and a
    caller's context with an entry named as a platform entry. *)
Definition echo : backend nat := {|
  get_connection := fun _ _ _ w => (Ok 7, w);
  render_to_string := fun _ c w =>
    (Ok ("<p>" +:+ default "" (c !! "username") +:+ " at "
               +:+ default "" (c !! "site_name") +:+ "</p>"), w);
  strip_tags := fun html => html;
  attach_file := fun _ w => (Ok tt, w);
  message_send := fun _ w => (Ok 1%Z, S w);
  send_messages := fun _ ms w => (Ok (Z.of_nat (length ms)), S w)
|}.

Definition ctx_site : context := <["site_name" := "Mine"]> ctx.

End Demo.

(** ** The service *)

Section Service.
Context {W : Type}.
Variable B : backend W.
Variable config : EmailConfig.        (* self.config *)
Variable email_config : Settings.     (* email_config and settings *)

Local Abbreviation M := (M W).

(** The [connection] property: build the connection on first use, keep it
    in [self._connection]. *)
Definition connection : M conn :=
  fun st =>
    match _connection st with
    | None =>
        try_except
          (c <- call EvConnect
                 (get_connection B (EMAIL_HOST_USER email_config)
                    (EMAIL_HOST_PASSWORD email_config) (TIMEOUT config)) ;;
           fun st' => (Ok c, Build_state (Some c) (world st') (journal st')))
          (fun e => emit (EvLog Error (ConnectionFailed e)) ;;; raise e)
          st
    | Some c => (Ok c, st)
    end.

(** [EmailThread.run] *)
Definition EmailThread_run (emails : list message) : M unit :=
  try_except
    (c <- connection ;;
     call (EvSendMessages emails) (send_messages B c emails) ;;;
     ret tt)
    (fun e => emit (EvLog Error (ThreadFailed e))).

(** [context.update({...})] with the four platform entries. *)
Definition platform_context (ctx : context) : context :=
  <["unsubscribe_link" := unsubscribe_link email_config]>
 (<["support_email" := platform_contact_email email_config]>
 (<["company_address" := platform_address email_config]>
 (<["site_name" := platform_name email_config]> ctx))).

Definition as_list (recipient_list : string + list string) : list string :=
  match recipient_list with
  | inl s => [s]
  | inr l => l
  end.

Definition attach_all (msg : message) (paths : list string) : M message :=
  foldM (fun (m : message) (path : string) =>
           call (EvAttach path) (attach_file B path) ;;;
           ret {| msg_subject := msg_subject m; msg_body := msg_body m;
                  msg_from_email := msg_from_email m; msg_to := msg_to m;
                  msg_connection := msg_connection m;
                  msg_alternatives := msg_alternatives m;
                  msg_attachments := msg_attachments m ++ [path];
                  msg_extra_headers := msg_extra_headers m |})
        paths msg.

Definition prepare_email_message (subject template_name : string)
           (ctx : context) (recipient_list : string + list string)
           (priority : string) (attachments : option (list string))
  : M message :=
  let template_path := "emails/" +:+ template_name +:+ ".html" in
  let ctx := platform_context ctx in
  html_content <- call (EvRender template_path)
                    (render_to_string B template_path ctx) ;;
  let plain_content := strip_tags B html_content in
  let recipient_list := as_list recipient_list in
  c <- connection ;;
  emit (EvBuild recipient_list) ;;;
  let msg := {| msg_subject := subject; msg_body := plain_content;
                msg_from_email := DEFAULT_FROM_EMAIL email_config;
                msg_to := recipient_list; msg_connection := c;
                msg_alternatives := [(html_content, "text/html")];
                msg_attachments := [];
                msg_extra_headers := ∅ |} in
  msg <- match attachments with
         | Some (p :: ps) => attach_all msg (p :: ps)
         | _ => ret msg
         end ;;
  ret (if String.eqb priority "high"
       then {| msg_subject := msg_subject msg; msg_body := msg_body msg;
               msg_from_email := msg_from_email msg; msg_to := msg_to msg;
               msg_connection := msg_connection msg;
               msg_alternatives := msg_alternatives msg;
               msg_attachments := msg_attachments msg;
               msg_extra_headers := <["X-Priority" := "1"]> (msg_extra_headers msg) |}
       else msg).

Definition too_many : exn :=
  ValueError ("Too many recipients (max " +:+ pretty (MAX_RECIPIENTS config) +:+ ")").

Definition send_email (subject template_name : string) (ctx : context)
           (recipient_list : string + list string) (priority : string)
           (attachments : option (list string)) (async_send : bool) : M bool :=
  let recipient_list := as_list recipient_list in
  try_except
    (if (MAX_RECIPIENTS config <? Z.of_nat (length recipient_list))%Z
     then raise too_many
     else
       email_message <- prepare_email_message subject template_name ctx
                          (inr recipient_list) priority attachments ;;
       (if async_send && email_threading_enabled email_config
        then emit (EvThreadStart [email_message])
        else call (EvSend email_message) (message_send B email_message) ;;;
             ret tt) ;;;
       emit (EvLog Info (SentOk (length recipient_list) subject)) ;;;
       ret true)
    (fun e =>
       emit (EvLog Error
               (SendFailed e subject template_name (length recipient_list))) ;;;
       ret false).

(** The defaults of [send_email]. *)
Definition default_priority : string := "medium".
Definition default_attachments : option (list string) := None.
Definition default_async_send : bool := true.

Definition tally (r : results) (recipient : string) (o : outcome bool) : M results :=
  match o with
  | Ok true =>
      ret {| total_recipients := total_recipients r;
             valid_recipients := valid_recipients r;
             successful_sends := successful_sends r + 1;
             failed_sends := failed_sends r;
             failed_recipients := failed_recipients r |}
  | Ok false =>
      ret {| total_recipients := total_recipients r;
             valid_recipients := valid_recipients r;
             successful_sends := successful_sends r;
             failed_sends := failed_sends r + 1;
             failed_recipients := failed_recipients r ++ [recipient] |}
  | Raise e =>
      emit (EvLog Error (UnexpectedError recipient e)) ;;;
      ret {| total_recipients := total_recipients r;
             valid_recipients := valid_recipients r;
             successful_sends := successful_sends r;
             failed_sends := failed_sends r + 1;
             failed_recipients := failed_recipients r ++ [recipient] |}
  end.

(** [parallel_email_send]. The pool runs one [send_email] per valid
    recipient; [sched] lists the submitted tasks in the order in which they
    complete, and the effects of a task are taken to happen together, at
    that point. *)
Definition parallel_email_send (subject template_name : string)
           (ctx : context) (recipient_list : list string) (priority : string)
           (attachments : option (list string)) (sched : list nat) : M results :=
  let valid := List.filter validate_email recipient_list in
  let results0 := {| total_recipients := length recipient_list;
                     valid_recipients := length valid;
                     successful_sends := 0; failed_sends := 0;
                     failed_recipients := [] |} in
  if (THREAD_POOL_SIZE config <=? 0)%Z
  then raise (ValueError "max_workers must be greater than 0")
  else
    mapM (fun recipient => emit (EvSubmit recipient)) valid ;;;
    foldM (fun r i =>
             match nth_error valid i with
             | None => ret r
             | Some recipient =>
                 o <- capture (send_email subject template_name ctx
                                 (inr [recipient]) priority attachments
                                 default_async_send) ;;
                 tally r recipient o
             end)
          sched results0.

Definition templates : gmap string string :=
  <["account_verification" := "account_verification"]>
 (<["password_reset" := "password_reset"]>
 (<["welcome" := "welcome_email"]> ∅)).

Definition transactional_subject (event_type : string) : string :=
  "Waanverse - " +:+ title (replace "_" " " event_type).

Definition send_transactional_email (recipient event_type : string)
           (ctx : context) : M bool :=
  try_except
    (match templates !! event_type with
     | None | Some "" =>
         emit (EvLog Error (UnknownType event_type)) ;;; ret false
     | Some template =>
         send_email (transactional_subject event_type) template ctx
           (inl recipient) default_priority default_attachments
           default_async_send
     end)
    (fun e => emit (EvLog Error (TransactionalFailed e)) ;;; ret false).

Definition failed_record (recipient : string) (e : exn) : pydict :=
  <["error" := VStr (str_exn e)]> (<["recipient" := VStr recipient]> ∅).

(** The body of the loop of [send_batch_emails], for one batch. *)
Definition send_batch (template_name : string) (ctx : context) (subject : string)
           (counts : nat * nat * list pydict) (batch : list string)
  : M (nat * nat * list pydict) :=
  let '(success_count, failure_count, failed) := counts in
  messages <- mapM (fun recipient =>
                      prepare_email_message subject template_name ctx
                        (inr [recipient]) default_priority default_attachments)
                   batch ;;
  try_except
    (c <- connection ;;
     call (EvSendMessages messages) (send_messages B c messages) ;;;
     ret (success_count + length batch, failure_count, failed))
    (fun e =>
       emit (EvLog Error (BatchFailed batch e)) ;;;
       ret (success_count, failure_count + length batch,
            failed ++ map (fun recipient => failed_record recipient e) batch)).

Definition send_batch_emails (template_name : string) (ctx : context)
           (recipient_list : list string) (subject : string)
  : M (nat * nat * list pydict) :=
  starts <- lift_outcome
              (py_range 0 (Z.of_nat (length recipient_list)) (BATCH_SIZE config)) ;;
  foldM (fun counts i =>
           send_batch template_name ctx subject counts
             (slice recipient_list i (i + BATCH_SIZE config)))
        starts (0, 0, []).

(** The records that [send_batch_emails] makes of the batches whose send
    raised. *)
Definition failures (sent : list (list string * option exn)) : list pydict :=
  flat_map (fun b => match snd b with
                     | Some e => map (fun recipient => failed_record recipient e) (fst b)
                     | None => []
                     end) sent.

(** [time.sleep(d)] for an [int]: the seconds are turned into nanoseconds
    in a signed 64-bit integer, which fails with [OverflowError] beyond
    [sleep_max] seconds either way; a negative length is then refused with
    [ValueError]. The text of the [OverflowError] differs between versions
    of the interpreter; no property below depends on it. *)
Definition sleep_max : Z := 9223372036.

Definition sleep_error (d : Z) : option exn :=
  if (sleep_max <? d)%Z || (d <? - sleep_max)%Z
  then Some (OverflowError "timestamp too large to convert to C PyTime_t")
  else if (d <? 0)%Z then Some (ValueError "sleep length must be non-negative")
  else None.

Definition sleep (d : Z) : M unit :=
  match sleep_error d with
  | Some e => raise e
  | None => emit (EvSleep d)
  end.

(** The list handed to [retry_failed_emails] is changed in place, and so is
    the [context] dict of a record when the message builder writes the
    platform entries into it. The list is therefore kept as its objects:
    each record carries the position it had in the caller's list, and the
    records are taken to be distinct objects with a context of their own. *)
Abbreviation pending := (list (nat * pydict)).

(** A computation of the retry loop threads the caller's list beside the
    state of the service: what was done to the list stays done when an
    exception is raised. *)
Definition LM (A : Type) : Type :=
  pending -> state W -> (outcome A * pending) * state W.

Definition l_ret {A} (a : A) : LM A := fun live st => ((Ok a, live), st).

Definition l_bind {A C} (m : LM A) (f : A -> LM C) : LM C :=
  fun live st =>
    match m live st with
    | ((Ok a, live'), st') => f a live' st'
    | ((Raise e, live'), st') => ((Raise e, live'), st')
    end.

Definition l_try {A} (m : LM A) (h : exn -> LM A) : LM A :=
  fun live st =>
    match m live st with
    | ((Ok a, live'), st') => ((Ok a, live'), st')
    | ((Raise e, live'), st') => h e live' st'
    end.

(** A step that does not touch the list. *)
Definition l_lift {A} (m : M A) : LM A :=
  fun live st => let (r, st') := m st in ((r, live), st').

Definition l_get : LM pending := fun live st => ((Ok live, live), st).

Definition l_modify (f : pending -> pending) : LM unit :=
  fun live st => ((Ok tt, f live), st).

Fixpoint l_for {A} (body : A -> LM unit) (l : list A) : LM unit :=
  match l with
  | [] => l_ret tt
  | x :: l' => l_bind (body x) (fun _ => l_for body l')
  end.

(** The record at position [i] takes the content [d]. *)
Definition set_record (i : nat) (d : pydict) (live : pending) : pending :=
  map (fun p => if Nat.eqb (fst p) i then (i, d) else p) live.

(** [list.remove(x)]: drop the first item equal to [x]. *)
Fixpoint list_remove (x : pydict) (live : pending) : outcome pending :=
  match live with
  | [] => Raise (ValueError "list.remove(x): x not in list")
  | p :: rest =>
      if decide (snd p = x) then Ok rest
      else match list_remove x rest with
           | Ok rest' => Ok (p :: rest')
           | Raise e => Raise e
           end
  end.

(** [failed_recipients.remove(x)] *)
Definition l_remove (x : pydict) : LM unit :=
  fun live st =>
    match list_remove x live with
    | Ok rest => ((Ok tt, rest), st)
    | Raise e => ((Raise e, live), st)
    end.

(** The four look-ups that make the arguments of the call to
    [prepare_email_message], in the order in which they are written. *)
Definition retry_arguments (failed : pydict)
  : outcome (string * string * context * string) :=
  match getitem failed "subject" with
  | Raise e => Raise e
  | Ok subject =>
  match getitem failed "template_name" with
  | Raise e => Raise e
  | Ok template_name =>
  match getitem failed "context" with
  | Raise e => Raise e
  | Ok ctx =>
  match getitem failed "recipient" with
  | Raise e => Raise e
  | Ok recipient =>
  match as_str subject, as_str template_name, as_dict ctx, as_str recipient with
  | Ok s, Ok t, Ok c, Ok r => Ok (s, t, c, r)
  | _, _, _, _ => Raise TypeError
  end end end end end.

(** The [except] clause of the retry loop; its f-string reads
    [failed['recipient']] again. *)
Definition retry_except (attempt retries : Z) (failed : pydict) (e : exn)
  : LM unit :=
  l_bind (l_lift (lift_outcome (getitem failed "recipient"))) (fun recipient =>
  l_lift (emit (EvLog Error (RetryFailed attempt retries recipient e)))).

(** The body of the [try] of the retry loop for the record [failed] at
    position [i]: the arguments are looked up, the message builder writes the
    platform entries into the context of the record, the message is sent and
    the record is removed from the list. *)
Definition retry_try (i : nat) (failed : pydict) : LM unit :=
  l_bind (l_lift (lift_outcome (retry_arguments failed)))
    (fun '(subject, template_name, ctx, recipient) =>
  let failed' := <["context" := VDict (platform_context ctx)]> failed in
  l_bind (l_modify (set_record i failed')) (fun _ =>
  l_bind (l_lift (prepare_email_message subject template_name ctx
                    (inr [recipient]) default_priority default_attachments))
    (fun email_message =>
  l_bind (l_lift (call (EvSend email_message) (message_send B email_message)))
    (fun _ =>
  l_bind (l_remove failed') (fun _ =>
  l_lift (emit (EvLog Info (RetryOk (VStr recipient))))))))).

(** One pass of the inner loop, for the record [failed] at position [i]. *)
Definition retry_one (attempt retries : Z) (entry : nat * pydict) : LM unit :=
  let (i, failed) := entry in
  l_try (retry_try i failed) (retry_except attempt retries failed).

(** The rounds: each runs over a copy of the list as it is when the round
    starts, and sleeps when it leaves something in the list. *)
Fixpoint retry_rounds (attempts : list Z) (retries delay : Z) : LM unit :=
  match attempts with
  | [] => l_ret tt
  | attempt :: rest =>
      l_bind l_get (fun snapshot =>
      l_bind (l_for (retry_one attempt retries) snapshot) (fun _ =>
      l_bind l_get (fun live =>
      l_bind (match live with
              | [] => l_ret tt
              | _ :: _ => l_lift (sleep delay)
              end) (fun _ =>
      retry_rounds rest retries delay))))
  end.

(** [retry_failed_emails], with the content of the caller's list when the
    call ends, whether it returns or raises. *)
Definition retry_failed_emails_run (failed_recipients : list pydict)
           (retries delay : Z) (st : state W)
  : (outcome unit * list pydict) * state W :=
  let '((o, live), st') :=
    retry_rounds (map (fun k => (1 + Z.of_nat k)%Z) (seq 0 (Z.to_nat retries)))
      retries delay
      (combine (seq 0 (length failed_recipients)) failed_recipients) st in
  ((o, map snd live), st').

(** [retry_failed_emails] returns nothing; the result here is the content
    of the caller's list when it returns. *)
Definition retry_failed_emails (failed_recipients : list pydict)
           (retries delay : Z) : M (list pydict) :=
  fun st =>
    let '((o, final), st') :=
      retry_failed_emails_run failed_recipients retries delay st in
    (match o with Ok _ => Ok final | Raise e => Raise e end, st').

(** * Properties *)

(** ** Chunks *)

Section ChunkFacts.
Context {A : Type}.

Lemma ceil_div_step (len nb : nat) :
  0 < nb -> 0 < len ->
  Z.to_nat ((Z.of_nat len + Z.of_nat nb - 1) / Z.of_nat nb) =
  S (Z.to_nat ((Z.of_nat (len - nb) + Z.of_nat nb - 1) / Z.of_nat nb)).
Proof.
  intros Hnb Hlen. destruct (le_lt_dec nb len) as [Hge|Hlt].
  - replace (Z.of_nat len + Z.of_nat nb - 1)%Z
      with ((Z.of_nat (len - nb) + Z.of_nat nb - 1) + 1 * Z.of_nat nb)%Z by lia.
    rewrite Z.div_add by lia.
    assert (0 <= (Z.of_nat (len - nb) + Z.of_nat nb - 1) / Z.of_nat nb)%Z
      by (apply Z.div_pos; lia).
    lia.
  - replace (len - nb) with 0 by lia.
    replace (Z.of_nat len + Z.of_nat nb - 1)%Z
      with ((Z.of_nat len - 1) + 1 * Z.of_nat nb)%Z by lia.
    rewrite Z.div_add by lia.
    rewrite !Z.div_small by lia. reflexivity.
Qed.

Lemma chunks_fuel_seq (nb : nat) :
  0 < nb ->
  forall fuel (l : list A),
    length l <= fuel ->
    chunks_fuel fuel nb l =
    map (fun k => firstn nb (skipn (k * nb) l))
        (seq 0 (Z.to_nat ((Z.of_nat (length l) + Z.of_nat nb - 1) / Z.of_nat nb))).
Proof.
  intros Hnb. induction fuel as [|fuel IH]; intros l Hl.
  - destruct l; [| simpl in Hl; lia]. simpl.
    rewrite Z.div_small by lia. reflexivity.
  - destruct l as [|x l'].
    + simpl. rewrite Z.div_small by lia. reflexivity.
    + set (l := x :: l') in *.
      change (chunks_fuel (S fuel) nb l)
        with (firstn nb l :: chunks_fuel fuel nb (skipn nb l)).
      rewrite ceil_div_step by (subst l; simpl; lia).
      rewrite IH by (rewrite length_skipn; subst l; simpl in *; lia).
      rewrite length_skipn. simpl seq. rewrite <- seq_shift. cbn [map].
      rewrite List.map_map. f_equal. apply List.map_ext. intros k.
      rewrite List.skipn_skipn. do 2 f_equal. lia.
Qed.

Lemma concat_chunks_fuel (nb : nat) :
  0 < nb ->
  forall fuel (l : list A), length l <= fuel -> concat (chunks_fuel fuel nb l) = l.
Proof.
  intros Hnb. induction fuel as [|fuel IH]; intros l Hl.
  - destruct l; [reflexivity | simpl in Hl; lia].
  - destruct l as [|x l']; [reflexivity |].
    set (l := x :: l') in *.
    change (chunks_fuel (S fuel) nb l)
      with (firstn nb l :: chunks_fuel fuel nb (skipn nb l)).
    simpl concat. rewrite IH by (rewrite length_skipn; subst l; simpl in *; lia).
    apply firstn_skipn.
Qed.

Lemma chunks_fuel_nonempty (nb : nat) :
  0 < nb ->
  forall fuel (l : list A), Forall (fun c => c <> []) (chunks_fuel fuel nb l).
Proof.
  intros Hnb. induction fuel as [|fuel IH]; intros l; [constructor |].
  destruct l as [|x l']; [constructor |].
  set (l := x :: l') in *.
  change (chunks_fuel (S fuel) nb l)
    with (firstn nb l :: chunks_fuel fuel nb (skipn nb l)).
  constructor; [| apply IH].
  subst l. destruct nb; [lia | discriminate].
Qed.

(** The batches cut by [range(0, len(l), step)] and [l[i:i+step]] are the
    consecutive chunks of [l]. *)
Lemma range_slices_chunks (l : list A) (step : Z) :
  (0 < step)%Z ->
  exists starts,
    py_range 0 (Z.of_nat (length l)) step = Ok starts /\
    map (fun i => slice l i (i + step)) starts = chunks (Z.to_nat step) l.
Proof.
  intros Hstep. unfold py_range.
  assert (E0 : (step =? 0)%Z = false) by (apply Z.eqb_neq; lia).
  assert (E1 : (0 <? step)%Z = true) by (apply Z.ltb_lt; lia).
  rewrite E0, E1. eexists. split; [reflexivity |].
  unfold chunks. rewrite chunks_fuel_seq by lia.
  rewrite List.map_map, Z.sub_0_r, Z2Nat.id by lia.
  apply List.map_ext. intros k. unfold slice.
  replace (0 + Z.of_nat k * step + step - (0 + Z.of_nat k * step))%Z
    with step by lia.
  do 2 f_equal. rewrite Z.add_0_l, Z2Nat.inj_mul by lia.
  now rewrite Nat2Z.id.
Qed.

End ChunkFacts.

(** ** The monad *)

Lemma try_except_ok {A} (m : M A) h st :
  (exists a st', m st = (Ok a, st')) -> try_except m h st = m st.
Proof. intros (a & st' & H). unfold try_except. now rewrite H. Qed.

Lemma after_refl (st : state W) : after st [] st.
Proof. unfold after. now rewrite app_nil_r. Qed.

Lemma after_trans (st1 st2 st3 : state W) n1 n2 :
  after st1 n1 st2 -> after st2 n2 st3 -> after st1 (n1 ++ n2) st3.
Proof. unfold after. intros H1 H2. now rewrite H2, H1, app_assoc. Qed.

(** ** The connection *)

Lemma connection_cached (st : state W) c :
  _connection st = Some c -> connection st = (Ok c, st).
Proof. intros H. unfold connection. now rewrite H. Qed.

Lemma connection_fresh_ok (st : state W) c w :
  _connection st = None ->
  get_connection B (EMAIL_HOST_USER email_config)
    (EMAIL_HOST_PASSWORD email_config) (TIMEOUT config) (world st) = (Ok c, w) ->
  connection st = (Ok c, Build_state (Some c) w (journal st ++ [EvConnect None])).
Proof.
  intros Hn Hg. unfold connection, try_except, bind, call.
  rewrite Hn, Hg. reflexivity.
Qed.

Lemma connection_fresh_raise (st : state W) e w :
  _connection st = None ->
  get_connection B (EMAIL_HOST_USER email_config)
    (EMAIL_HOST_PASSWORD email_config) (TIMEOUT config) (world st) = (Raise e, w) ->
  connection st =
  (Raise e, Build_state None w
              (journal st ++ [EvConnect (Some e); EvLog Error (ConnectionFailed e)])).
Proof.
  intros Hn Hg. unfold connection, try_except, bind, call, emit, raise.
  rewrite Hn, Hg. simpl. rewrite <- app_assoc. reflexivity.
Qed.

(** C6. Once an access to [connection] has returned a handle, every later
    access, from any state in which [_connection] still holds it, returns
    that handle and changes nothing: no second call to [get_connection].
    An access that finds the cache empty calls [get_connection] once; one
    that finds it filled does not call it. *)
Theorem connection_idempotent (st st1 : state W) (c : conn) :
  connection st = (Ok c, st1) ->
  connection st1 = (Ok c, st1)
  /\ (forall st2, _connection st2 = _connection st1 ->
                  connection st2 = (Ok c, st2))
  /\ exists new, after st new st1
       /\ count_events is_connect new =
          match _connection st with None => 1 | Some _ => 0 end.
Proof.
  intros H.
  assert (Hc : _connection st1 = Some c /\
               exists new, after st new st1 /\
                 count_events is_connect new =
                 match _connection st with None => 1 | Some _ => 0 end).
  { destruct (_connection st) as [c0|] eqn:Hs.
    - rewrite (connection_cached st c0 Hs) in H. injection H as -> ->.
      split; [exact Hs |]. exists []. split; [apply after_refl | reflexivity].
    - destruct (get_connection B (EMAIL_HOST_USER email_config)
                  (EMAIL_HOST_PASSWORD email_config) (TIMEOUT config) (world st))
        as [[c1|e] w] eqn:Hg.
      + rewrite (connection_fresh_ok st c1 w Hs Hg) in H. injection H as -> <-.
        split; [reflexivity |]. exists [EvConnect None]. split; reflexivity.
      + rewrite (connection_fresh_raise st e w Hs Hg) in H. discriminate. }
  destruct Hc as [Hc Hnew]. repeat split.
  - now apply connection_cached.
  - intros st2 H2. apply connection_cached. congruence.
  - exact Hnew.
Qed.

(** ** Single send and the transactional dispatcher *)

(** [send_email] never raises: its [except Exception] answers [False]. *)
Lemma send_email_total subject template ctx rl priority attachments async st :
  exists b st',
    send_email subject template ctx rl priority attachments async st = (Ok b, st').
Proof.
  unfold send_email, try_except.
  match goal with |- context [match ?m st with _ => _ end] =>
    destruct (m st) as [[b|e] st'] end; eauto.
Qed.

(** C2. With more recipients than [MAX_RECIPIENTS], [send_email] returns
    [False] and raises nothing; the world and the cached connection are as
    before, and the one thing journalled is the error log of the
    [ValueError] of the recipient check: nothing was rendered, built or
    handed to the transport. *)
Theorem send_email_too_many subject template ctx rl priority attachments async
        (st : state W) :
  (MAX_RECIPIENTS config < Z.of_nat (length (as_list rl)))%Z ->
  send_email subject template ctx rl priority attachments async st =
  (Ok false,
   Build_state (_connection st) (world st)
     (journal st ++
      [EvLog Error (SendFailed too_many subject template
                      (length (as_list rl)))]))
  /\ is_build (EvLog Error (SendFailed too_many subject template
                              (length (as_list rl)))) = false
  /\ is_transport (EvLog Error (SendFailed too_many subject template
                                  (length (as_list rl)))) = false.
Proof.
  intros H. apply Z.ltb_lt in H.
  unfold send_email, try_except, bind, raise, emit, ret.
  rewrite H. simpl. auto.
Qed.

(** C7, as the code has it. When the connection cannot be established
    during [send_email], the [connection] property logs the error and
    raises it, and [send_email] catches it, logs it again and returns
    [False]: nothing is raised to the caller, and no later access finds a
    cached connection. *)
Theorem send_email_connection_failure subject template ctx rl priority
        attachments async (st : state W) html w1 e w2 :
  (Z.of_nat (length (as_list rl)) <= MAX_RECIPIENTS config)%Z ->
  _connection st = None ->
  render_to_string B ("emails/" +:+ template +:+ ".html")
    (platform_context ctx) (world st) = (Ok html, w1) ->
  get_connection B (EMAIL_HOST_USER email_config)
    (EMAIL_HOST_PASSWORD email_config) (TIMEOUT config) w1 = (Raise e, w2) ->
  send_email subject template ctx rl priority attachments async st =
  (Ok false,
   Build_state None w2
     (journal st ++
      [EvRender ("emails/" +:+ template +:+ ".html") None; EvConnect (Some e);
       EvLog Error (ConnectionFailed e);
       EvLog Error (SendFailed e subject template (length (as_list rl)))])).
Proof.
  intros Hmax Hn Hr Hg.
  assert (Hlt : (MAX_RECIPIENTS config <? Z.of_nat (length (as_list rl)))%Z = false)
    by (apply Z.ltb_ge; exact Hmax).
  unfold send_email, try_except. rewrite Hlt.
  unfold bind at 1. unfold prepare_email_message.
  unfold bind at 1. unfold call at 1. rewrite Hr.
  unfold bind at 1.
  erewrite connection_fresh_raise; [| exact Hn | exact Hg].
  unfold bind, emit, ret. simpl. rewrite <- !app_assoc. reflexivity.
Qed.

Lemma templates_dom :
  dom templates = ({["welcome"; "password_reset"; "account_verification"]} : gset string).
Proof. unfold templates. rewrite !dom_insert_L, dom_empty_L. set_solver. Qed.

Lemma templates_welcome : templates !! "welcome" = Some "welcome_email".
Proof. reflexivity. Qed.
Lemma templates_password_reset : templates !! "password_reset" = Some "password_reset".
Proof. reflexivity. Qed.
Lemma templates_account_verification :
  templates !! "account_verification" = Some "account_verification".
Proof. reflexivity. Qed.

Lemma templates_Some ev template :
  templates !! ev = Some template ->
  (ev = "welcome" /\ template = "welcome_email") \/
  (ev = "password_reset" /\ template = "password_reset") \/
  (ev = "account_verification" /\ template = "account_verification").
Proof.
  unfold templates. intros H.
  apply lookup_insert_Some in H as [[<- <-] | [_ H]]; [auto |].
  apply lookup_insert_Some in H as [[<- <-] | [_ H]]; [auto |].
  apply lookup_insert_Some in H as [[<- <-] | [_ H]]; [auto |].
  rewrite lookup_empty in H. discriminate.
Qed.

(** A mapped event type is passed on to [send_email], with the template of
    the table and the defaults of [send_email] for everything else. *)
Lemma send_transactional_email_mapped recipient ev ctx template (st : state W) :
  templates !! ev = Some template ->
  send_transactional_email recipient ev ctx st =
  send_email (transactional_subject ev) template ctx (inl recipient)
    default_priority default_attachments default_async_send st.
Proof.
  intros H. unfold send_transactional_email. rewrite H.
  apply templates_Some in H as [[-> ->] | [[-> ->] | [-> ->]]];
    apply try_except_ok, send_email_total.
Qed.

(** C8. An event type outside the table [welcome], [password_reset],
    [account_verification] makes [send_transactional_email] return [False]
    with one log entry and nothing else journalled or changed, so without a
    call to [send_email]; an event type of the table is passed on to
    [send_email] with the template the table gives. *)
Theorem send_transactional_email_spec recipient ev ctx (st : state W) :
  (ev ∉ dom templates ->
   send_transactional_email recipient ev ctx st =
   (Ok false,
    Build_state (_connection st) (world st)
      (journal st ++ [EvLog Error (UnknownType ev)])))
  /\ (forall template,
        templates !! ev = Some template ->
        send_transactional_email recipient ev ctx st =
        send_email (transactional_subject ev) template ctx (inl recipient)
          default_priority default_attachments default_async_send st)
  /\ dom templates =
     ({["welcome"; "password_reset"; "account_verification"]} : gset string)
  /\ templates !! "welcome" = Some "welcome_email"
  /\ templates !! "password_reset" = Some "password_reset"
  /\ templates !! "account_verification" = Some "account_verification".
Proof.
  split; [| split; [| split; [| repeat split]]].
  - intros H. apply not_elem_of_dom in H.
    unfold send_transactional_email. rewrite H. reflexivity.
  - intros template. apply send_transactional_email_mapped.
  - apply templates_dom.
Qed.

(** C9, as the code has it. A mapped event type is passed on to
    [send_email] without an [async_send] argument, so with its default,
    which is [True]: the message goes to a started [EmailThread] when
    threading is enabled, and the send is the synchronous one only when
    [email_threading_enabled] is off. *)
Theorem send_transactional_email_async recipient ev ctx template (st : state W) :
  templates !! ev = Some template ->
  send_transactional_email recipient ev ctx st =
  send_email (transactional_subject ev) template ctx (inl recipient)
    default_priority default_attachments true st
  /\ default_async_send = true
  /\ (email_threading_enabled email_config = false ->
      send_transactional_email recipient ev ctx st =
      send_email (transactional_subject ev) template ctx (inl recipient)
        default_priority default_attachments false st).
Proof.
  intros H. rewrite (send_transactional_email_mapped _ _ _ _ _ H).
  repeat split. intros Hoff.
  unfold send_email, default_async_send. rewrite Hoff. reflexivity.
Qed.

(** ** What a run may journal *)

Lemma emits_ret {A} P (Q : A -> Prop) a : Q a -> emits (W:=W) P Q (ret a).
Proof.
  intros HQ st r st' [= <- <-]. split.
  - exists []. split; [apply after_refl | constructor].
  - now intros ? [= <-].
Qed.

Lemma emits_raise {A} P (Q : A -> Prop) e : emits (W:=W) P Q (raise e).
Proof.
  intros st r st' [= <- <-]. split.
  - exists []. split; [apply after_refl | constructor].
  - discriminate.
Qed.

Lemma emits_lift {A} P (Q : A -> Prop) o :
  (forall a, o = Ok a -> Q a) -> emits (W:=W) P Q (lift_outcome o).
Proof.
  intros HQ st r st' [= <- <-]. split; [| exact HQ].
  exists []. split; [apply after_refl | constructor].
Qed.

Lemma emits_emit P e : P e -> emits (W:=W) P (fun _ => True) (emit e).
Proof.
  intros HP st r st' [= <- <-]. split; [| auto].
  exists [e]. split; [reflexivity | auto].
Qed.

Lemma emits_call {A} P ev (f : W -> outcome A * W) :
  (forall r, P (ev r)) -> emits P (fun _ => True) (call ev f).
Proof.
  intros HP st r st'. unfold call. destruct (f (world st)) as [r0 w].
  intros [= <- <-]. split; [| auto].
  eexists [_]. split; [reflexivity | auto].
Qed.

Lemma emits_bind {A C} P (Q : A -> Prop) (R : C -> Prop) (m : M A) (f : A -> M C) :
  emits P Q m -> (forall a, Q a -> emits P R (f a)) -> emits P R (bind m f).
Proof.
  intros Hm Hf st r st'. unfold bind.
  destruct (m st) as [[a|e] st1] eqn:E.
  - intros H. destruct (Hm _ _ _ E) as [(n1 & A1 & F1) HQ].
    destruct (Hf a (HQ a eq_refl) _ _ _ H) as [(n2 & A2 & F2) HR].
    split; [| exact HR].
    exists (n1 ++ n2). split; [eapply after_trans; eassumption |].
    apply Forall_app; auto.
  - intros [= <- <-]. destruct (Hm _ _ _ E) as [Hn _].
    split; [exact Hn | discriminate].
Qed.

Lemma emits_try_except {A} P (Q : A -> Prop) (m : M A) (h : exn -> M A) :
  emits P Q m -> (forall e, emits P Q (h e)) -> emits P Q (try_except m h).
Proof.
  intros Hm Hh st r st'. unfold try_except.
  destruct (m st) as [[a|e] st1] eqn:E.
  - intros [= <- <-]. exact (Hm _ _ _ E).
  - intros H. destruct (Hm _ _ _ E) as [(n1 & A1 & F1) _].
    destruct (Hh e _ _ _ H) as [(n2 & A2 & F2) HR].
    split; [| exact HR].
    exists (n1 ++ n2). split; [eapply after_trans; eassumption |].
    apply Forall_app; auto.
Qed.

Lemma emits_capture {A} P (m : M A) :
  emits P (fun _ => True) m -> emits P (fun _ => True) (capture m).
Proof.
  intros Hm st r st'. unfold capture.
  destruct (m st) as [r0 st1] eqn:E. intros [= <- <-].
  split; [exact (proj1 (Hm _ _ _ E)) | auto].
Qed.

Lemma emits_weaken {A} (P P' : event -> Prop) (Q Q' : A -> Prop) (m : M A) :
  (forall e, P e -> P' e) -> (forall a, Q a -> Q' a) ->
  emits P Q m -> emits P' Q' m.
Proof.
  intros HP HQ Hm st r st' E. destruct (Hm _ _ _ E) as [(n & A1 & F) H].
  split; [| intros a Ha; apply HQ, H, Ha].
  exists n. split; [exact A1 |]. eapply Forall_impl; eauto.
Qed.

Lemma emits_foldM {A S} P (I : S -> Prop) (body : S -> A -> M S) l :
  (forall acc x, I acc -> In x l -> emits P I (body acc x)) ->
  forall acc, I acc -> emits P I (foldM body l acc).
Proof.
  induction l as [|x l IH]; intros Hb acc HI; simpl.
  - now apply emits_ret.
  - eapply emits_bind; [apply Hb; simpl; auto |].
    intros acc' HI'. apply IH; [| exact HI'].
    intros; apply Hb; simpl; auto.
Qed.


Lemma emits_connection P :
  (forall r, P (EvConnect r)) ->
  (forall e, P (EvLog Error (ConnectionFailed e))) ->
  emits P (fun _ => True) (connection).
Proof.
  intros Hc Hl st r st' E. split; [| auto].
  destruct (_connection st) as [c0|] eqn:Hs.
  - rewrite (connection_cached st c0 Hs) in E.
    injection E as <- <-. exists []. split; [apply after_refl | constructor].
  - destruct (get_connection B (EMAIL_HOST_USER email_config)
                (EMAIL_HOST_PASSWORD email_config) (TIMEOUT config) (world st))
      as [[c1|e] w] eqn:Hg.
    + rewrite (connection_fresh_ok st c1 w Hs Hg) in E.
      injection E as <- <-. eexists [_]. split; [reflexivity | auto].
    + rewrite (connection_fresh_raise st e w Hs Hg) in E.
      injection E as <- <-. eexists [_; _]. split; [reflexivity | auto].
Qed.

Lemma emits_prepare subject template ctx rl priority attachments :
  emits (ev_build (as_list rl)) (fun m => msg_to m = as_list rl)
    (prepare_email_message subject template ctx rl
       priority attachments).
Proof.
  unfold prepare_email_message.
  eapply emits_bind; [apply emits_call; intros; exact I |]. intros html _.
  eapply emits_bind; [apply emits_connection; intros; exact I |]. intros c _.
  eapply emits_bind; [apply emits_emit; reflexivity |]. intros _ _.
  eapply emits_bind with (Q := fun m => msg_to m = as_list rl).
  - destruct attachments as [[|p ps]|]; try (now apply emits_ret).
    unfold attach_all. apply emits_foldM; [| reflexivity].
    intros m path Hm _.
    eapply emits_bind; [apply emits_call; intros; exact I |]. intros _ _.
    now apply emits_ret.
  - intros m Hm. apply emits_ret. now destruct (String.eqb priority "high").
Qed.

Lemma emits_send_email subject template ctx rl priority attachments async :
  emits (ev_single (as_list rl)) (fun _ => True)
    (send_email subject template ctx rl priority
       attachments async).
Proof.
  unfold send_email. apply emits_try_except.
  - destruct (_ <? _)%Z; [apply emits_raise |].
    eapply emits_bind with (Q := fun m => msg_to m = as_list rl).
    { eapply emits_weaken; [| | apply emits_prepare].
      - intros e H. simpl in H.
        destruct e as [lv lm| | | | | | | | |];
          try exact H; try (destruct H; fail).
        destruct lv, lm; simpl in *; auto.
      - simpl. auto. }
    intros m Hm.
    eapply emits_bind with (Q := fun _ => True).
    { destruct (async && _).
      - apply emits_emit. simpl. auto.
      - eapply emits_bind; [apply emits_call; intros; exact Hm |].
        intros; now apply emits_ret. }
    intros _ _. eapply emits_bind; [apply emits_emit; exact I |].
    intros; now apply emits_ret.
  - intros e. eapply emits_bind; [apply emits_emit; exact I |].
    intros; now apply emits_ret.
Qed.

(** ** Parallel send *)

Lemma mapM_submit (valid : list string) : forall st : state W,
  mapM (fun recipient => emit (EvSubmit recipient)) valid st =
  (Ok (map (fun _ => tt) valid),
   Build_state (_connection st) (world st) (journal st ++ map EvSubmit valid)).
Proof.
  induction valid as [|x valid IH]; intros st; simpl.
  - unfold ret. rewrite app_nil_r. now destruct st.
  - unfold bind at 1. unfold emit at 1. unfold bind at 1. rewrite IH.
    unfold ret. simpl. now rewrite <- app_assoc.
Qed.

Lemma submitted_submit (valid : list string) :
  submitted (map EvSubmit valid) = valid.
Proof. induction valid as [|x valid IH]; simpl; [reflexivity | now rewrite IH]. Qed.

Lemma submitted_tasks new : Forall task_event new -> submitted new = [].
Proof.
  induction 1 as [|e new [_ He] _ IH]; [reflexivity |].
  unfold submitted in *. simpl in *. rewrite app_nil_r in He.
  now rewrite He, IH.
Qed.

Lemma single_task_event recipient e :
  accepted recipient -> ev_single [recipient] e -> task_event e.
Proof.
  intros Hr He. unfold task_event.
  destruct e as [lv lm| | | | | | | | |]; simpl in *;
    try (destruct He; fail); try (split; [constructor | reflexivity]).
  - subst to. split; [repeat constructor; exact Hr | reflexivity].
  - rewrite He. split; [repeat constructor; exact Hr | reflexivity].
  - split; [| reflexivity]. induction He as [|m ms Hm _ IH]; simpl; [constructor |].
    rewrite Hm. constructor; [exact Hr | exact IH].
Qed.

Lemma tally_spec r recipient o (st : state W) :
  exists r' st' new,
    tally r recipient o st = (Ok r', st') /\
    total_recipients r' = total_recipients r /\
    valid_recipients r' = valid_recipients r /\
    successful_sends r' + failed_sends r' =
      successful_sends r + failed_sends r + 1 /\
    after st new st' /\ Forall task_event new.
Proof.
  destruct o as [[|]|e]; simpl.
  - eexists _, st, []. unfold ret. repeat split; simpl; try lia.
    + apply after_refl.
    + constructor.
  - eexists _, st, []. unfold ret. repeat split; simpl; try lia.
    + apply after_refl.
    + constructor.
  - eexists _, _, [_]. unfold bind, emit, ret. repeat split; simpl; try lia.
    repeat constructor.
Qed.

Lemma parallel_loop subject template ctx priority attachments valid :
  Forall accepted valid ->
  forall sched r (st : state W),
    Forall (fun i => i < length valid) sched ->
    exists r' st' new,
      foldM (fun r i =>
               match nth_error valid i with
               | None => ret r
               | Some recipient =>
                   o <- capture (send_email subject template ctx
                                   (inr [recipient]) priority attachments
                                   default_async_send) ;;
                   tally r recipient o
               end) sched r st = (Ok r', st') /\
      total_recipients r' = total_recipients r /\
      valid_recipients r' = valid_recipients r /\
      successful_sends r' + failed_sends r' =
        successful_sends r + failed_sends r + length sched /\
      after st new st' /\ Forall task_event new.
Proof.
  intros Hvalid. induction sched as [|i sched IH]; intros r st Hs; simpl.
  - exists r, st, []. unfold ret. repeat split; try lia.
    + apply after_refl.
    + constructor.
  - inversion Hs as [|? ? Hi Hs']; subst.
    destruct (nth_error valid i) as [recipient|] eqn:E;
      [| apply nth_error_None in E; lia].
    assert (Hr : accepted recipient).
    { eapply List.Forall_forall; [exact Hvalid |]. eapply nth_error_In; eassumption. }
    unfold bind at 1. unfold bind at 1. unfold capture at 1.
    destruct (send_email subject template ctx (inr [recipient]) priority
                attachments default_async_send st) as [o st1] eqn:Es.
    destruct (emits_send_email _ _ _ _ _ _ _ _ _ _ Es)
      as [(n1 & A1 & F1) _].
    destruct (tally_spec r recipient o st1)
      as (r1 & st2 & n2 & Et & T1 & V1 & C1 & A2 & F2).
    rewrite Et.
    destruct (IH r1 st2 Hs') as (r' & st' & n3 & Ef & T2 & V2 & C2 & A3 & F3).
    exists r', st', ((n1 ++ n2) ++ n3). rewrite Ef.
    split; [reflexivity |]. split; [congruence |]. split; [congruence |].
    split; [simpl; lia |]. split.
    + eapply after_trans; [eapply after_trans |]; eassumption.
    + apply Forall_app. split; [apply Forall_app; split |]; try assumption.
      eapply Forall_impl; [exact F1 |].
      intros e He. eapply single_task_event; eassumption.
Qed.

(** C3. For every recipient list and every order in which the submitted
    tasks complete, [parallel_email_send] returns an aggregate with
    [total_recipients] the length of the list, [valid_recipients] the
    number of addresses the validator accepts, and
    [successful_sends + failed_sends = valid_recipients]; the tasks
    submitted are the accepted addresses, in order, and no event of the run
    is about an address the validator rejects. *)
Theorem parallel_email_send_counts subject template ctx recipient_list priority
        attachments sched (st : state W) :
  (0 < THREAD_POOL_SIZE config)%Z ->
  Permutation sched
    (seq 0 (length (List.filter validate_email recipient_list))) ->
  exists r st' new,
    parallel_email_send subject template ctx recipient_list priority
      attachments sched st = (Ok r, st') /\
    total_recipients r = length recipient_list /\
    valid_recipients r = length (List.filter validate_email recipient_list) /\
    successful_sends r + failed_sends r = valid_recipients r /\
    after st new st' /\
    submitted new = List.filter validate_email recipient_list /\
    Forall (fun e => Forall accepted (addressees e)) new.
Proof.
  intros Hpool Hperm. unfold parallel_email_send.
  assert (Hp : (THREAD_POOL_SIZE config <=? 0)%Z = false) by (apply Z.leb_gt; lia).
  rewrite Hp. set (valid := List.filter validate_email recipient_list) in *.
  assert (Hvalid : Forall accepted valid).
  { apply List.Forall_forall. intros x Hx. apply filter_In in Hx. apply Hx. }
  assert (Hs : Forall (fun i => i < length valid) sched).
  { apply List.Forall_forall. intros i Hi.
    apply (Permutation_in _ Hperm), in_seq in Hi. lia. }
  unfold bind at 1. rewrite mapM_submit.
  match goal with |- context [foldM ?body sched ?r0 ?st0] =>
    destruct (parallel_loop subject template ctx priority attachments valid
                Hvalid sched r0 st0 Hs)
      as (r' & st' & new & Ef & T & V & C & A & F)
  end.
  exists r', st', (map EvSubmit valid ++ new). rewrite Ef.
  simpl in T, V, C.
  split; [reflexivity |]. split; [exact T |]. split; [exact V |].
  split; [| split; [| split]].
  - rewrite C, V. apply Permutation_length in Hperm.
    rewrite length_seq in Hperm. lia.
  - unfold after in *. rewrite A. simpl. now rewrite app_assoc.
  - unfold submitted. rewrite flat_map_app.
    change (submitted (map EvSubmit valid) ++ submitted new = valid).
    now rewrite submitted_submit, (submitted_tasks _ F), app_nil_r.
  - apply Forall_app. split.
    + apply List.Forall_forall. intros e He. apply in_map_iff in He as (x & <- & Hx).
      simpl. constructor; [| constructor].
      eapply List.Forall_forall in Hvalid; eauto.
    + eapply Forall_impl; [exact F |]. now intros e [He _].
Qed.


(** ** Batch send *)

Lemma connection_keeps (st : state W) r st' :
  connection st = (r, st') ->
  (forall c, _connection st = Some c -> _connection st' = Some c) /\
  (forall c, r = Ok c -> _connection st' = Some c).
Proof.
  intros E. destruct (_connection st) as [c0|] eqn:Hs.
  - rewrite (connection_cached st c0 Hs) in E. injection E as <- <-.
    split; intros c [= <-]; exact Hs.
  - destruct (get_connection B (EMAIL_HOST_USER email_config)
                (EMAIL_HOST_PASSWORD email_config) (TIMEOUT config) (world st))
      as [[c1|e] w] eqn:Hg.
    + rewrite (connection_fresh_ok st c1 w Hs Hg) in E. injection E as <- <-.
      split; [discriminate | now intros c [= <-]].
    + rewrite (connection_fresh_raise st e w Hs Hg) in E. injection E as <- <-.
      split; discriminate.
Qed.

Lemma prepare_connection subject template ctx rl priority (st : state W) r st' :
  prepare_email_message subject template ctx rl priority None st = (r, st') ->
  (forall c, _connection st = Some c -> _connection st' = Some c) /\
  (forall m, r = Ok m -> exists c, _connection st' = Some c).
Proof.
  unfold prepare_email_message. unfold bind at 1. unfold call at 1.
  destruct (render_to_string B _ _ (world st)) as [[html|e] w1].
  - unfold bind at 1.
    match goal with |- context [connection ?s] =>
      destruct (connection s) as [[c|e] st1] eqn:Ec;
      destruct (connection_keeps _ _ _ Ec) as [K1 K2]; simpl in K1
    end.
    + unfold bind, emit, ret. simpl. intros [= <- <-]. simpl.
      split; [exact K1 | intros _ _; exists c; now apply K2].
    + intros [= <- <-]. split; [exact K1 | discriminate].
  - intros [= <- <-]. simpl. split; [auto | discriminate].
Qed.

Lemma batches_sent_app j1 j2 :
  batches_sent (j1 ++ j2) = batches_sent j1 ++ batches_sent j2.
Proof. apply flat_map_app. Qed.

Lemma batches_sent_build to new : Forall (ev_build to) new -> batches_sent new = [].
Proof.
  induction 1 as [|e new He _ IH]; [reflexivity |].
  unfold batches_sent in *. simpl. rewrite IH.
  destruct e; simpl in *; try reflexivity; destruct He.
Qed.

Lemma mapM_prepare subject template ctx batch :
  forall (st : state W) ms st',
    mapM (fun recipient =>
            prepare_email_message subject template ctx (inr [recipient])
              default_priority default_attachments) batch st = (Ok ms, st') ->
    flat_map msg_to ms = batch /\
    (forall c, _connection st = Some c -> _connection st' = Some c) /\
    (batch <> [] -> exists c, _connection st' = Some c) /\
    exists new, after st new st' /\ batches_sent new = [].
Proof.
  induction batch as [|x batch IH]; intros st ms st'; simpl.
  - intros [= <- <-]. repeat split; auto; [congruence |].
    exists []. split; [apply after_refl | reflexivity].
  - unfold bind at 1.
    destruct (prepare_email_message subject template ctx (inr [x])
                default_priority default_attachments st) as [[m|e] st1] eqn:Ep;
      [| discriminate].
    destruct (prepare_connection _ _ _ _ _ _ _ _ Ep) as [K1 K2].
    destruct (K2 m eq_refl) as [c Hc].
    destruct (emits_prepare _ _ _ _ _ _ _ _ _ Ep) as [(n1 & A1 & F1) Hto].
    specialize (Hto m eq_refl). simpl in Hto.
    unfold bind at 1.
    destruct (mapM _ batch st1) as [[ms'|e] st2] eqn:Em; [| discriminate].
    intros [= <- <-].
    destruct (IH _ _ _ Em) as (Hf & K3 & _ & n2 & A2 & S2).
    simpl. rewrite Hto, Hf. repeat split.
    + intros c0 H0. apply K3, K1, H0.
    + intros _. exists c. apply K3, Hc.
    + exists (n1 ++ n2). split; [eapply after_trans; eassumption |].
      rewrite batches_sent_app, S2, (batches_sent_build _ _ F1). reflexivity.
Qed.

(** One pass of the loop: the batch is handed to the transport once, and the
    counts move by its length, to the side that the outcome of that call
    decides. *)
Lemma send_batch_spec template ctx subject sc fc fr batch (st : state W) acc st' :
  batch <> [] ->
  send_batch template ctx subject (sc, fc, fr) batch st = (Ok acc, st') ->
  exists new o,
    after st new st' /\ batches_sent new = [(batch, o)] /\
    acc = match o with
          | None => (sc + length batch, fc, fr)
          | Some e => (sc, fc + length batch,
                       fr ++ map (fun recipient => failed_record recipient e) batch)
          end.
Proof.
  intros Hne. unfold send_batch. unfold bind at 1.
  destruct (mapM _ batch st) as [[ms|e] st0] eqn:Em; [| discriminate].
  destruct (mapM_prepare _ _ _ _ _ _ _ Em) as (Hf & _ & Hc & n0 & A0 & S0).
  destruct (Hc Hne) as [c Hconn].
  unfold try_except. unfold bind at 1. rewrite (connection_cached st0 c Hconn).
  unfold bind at 1. unfold call at 1.
  destruct (send_messages B c ms (world st0)) as [[n|e] w].
  - unfold ret. intros [= <- <-].
    exists (n0 ++ [EvSendMessages ms None]), None. split; [| split; [| reflexivity]].
    + eapply after_trans; [exact A0 | reflexivity].
    + rewrite batches_sent_app, S0. simpl. now rewrite Hf.
  - unfold bind, emit, ret. simpl. intros [= <- <-].
    exists (n0 ++ [EvSendMessages ms (Some e); EvLog Error (BatchFailed batch e)]),
           (Some e).
    split; [| split; [| reflexivity]].
    + eapply after_trans; [exact A0 |]. unfold after. simpl.
      now rewrite <- app_assoc.
    + rewrite batches_sent_app, S0. simpl. now rewrite Hf.
Qed.

Lemma failures_app s1 s2 : failures (s1 ++ s2) = failures s1 ++ failures s2.
Proof. apply flat_map_app. Qed.

Lemma batch_loop template ctx subject :
  forall cs sc fc fr (st : state W) sc' fc' fr' st',
    Forall (fun c => c <> []) cs ->
    foldM (send_batch template ctx subject) cs (sc, fc, fr) st =
      (Ok (sc', fc', fr'), st') ->
    exists new,
      after st new st' /\
      map fst (batches_sent new) = cs /\
      fr' = fr ++ failures (batches_sent new) /\
      fc' = fc + length (failures (batches_sent new)) /\
      sc' + fc' = sc + fc + length (concat cs).
Proof.
  induction cs as [|c cs IH]; intros sc fc fr st sc' fc' fr' st' Hne; cbn [foldM].
  - intros [= <- <- <- <-]. exists []. simpl.
    rewrite app_nil_r. repeat split; [apply after_refl | lia | lia].
  - inversion Hne as [|? ? Hc Hcs]; subst.
    unfold bind at 1.
    destruct (send_batch template ctx subject (sc, fc, fr) c st)
      as [[acc|e] st1] eqn:E1; [| discriminate].
    destruct (send_batch_spec _ _ _ _ _ _ _ _ _ _ Hc E1)
      as (n1 & o & A1 & S1 & ->).
    intros E2. destruct o as [e|].
    + destruct (IH _ _ _ _ _ _ _ _ Hcs E2) as (n2 & A2 & M2 & F2 & C2 & T2).
      exists (n1 ++ n2). rewrite batches_sent_app, S1.
      split; [eapply after_trans; eassumption |].
      split; [simpl; now rewrite M2 |].
      rewrite failures_app. unfold failures at 1 3. simpl. rewrite app_nil_r.
      subst fr' fc'. rewrite !length_app, !length_map in *.
      split; [now rewrite app_assoc |]. split; lia.
    + destruct (IH _ _ _ _ _ _ _ _ Hcs E2) as (n2 & A2 & M2 & F2 & C2 & T2).
      exists (n1 ++ n2). rewrite batches_sent_app, S1.
      split; [eapply after_trans; eassumption |].
      split; [simpl; now rewrite M2 |].
      rewrite failures_app. unfold failures at 1 3. simpl.
      subst fr' fc'. rewrite !length_app in *.
      split; [reflexivity |]. split; lia.
Qed.

Lemma foldM_map {X Y S} (g : X -> Y) (body : S -> Y -> M S) l :
  forall acc (st : state W),
    foldM (fun acc x => body acc (g x)) l acc st = foldM body (map g l) acc st.
Proof.
  induction l as [|x l IH]; intros acc st; simpl; [reflexivity |].
  unfold bind. destruct (body acc (g x) st) as [[acc'|e] st1]; [apply IH | reflexivity].
Qed.

(** The loop of [send_batch_emails] runs over the chunks of the list. *)
Lemma send_batch_emails_chunks template ctx recipient_list subject (st : state W) :
  (0 < BATCH_SIZE config)%Z ->
  send_batch_emails template ctx recipient_list subject st =
  foldM (send_batch template ctx subject)
    (chunks (Z.to_nat (BATCH_SIZE config)) recipient_list) (0, 0, []) st.
Proof.
  intros Hb. unfold send_batch_emails.
  destruct (range_slices_chunks recipient_list _ Hb) as (starts & -> & <-).
  unfold bind, lift_outcome.
  apply (foldM_map (fun i => slice recipient_list i (i + BATCH_SIZE config))
           (send_batch template ctx subject)).
Qed.


Section Reliable.
(** A renderer and a connection factory that never raise. *)
Hypothesis render_ok :
  forall path c w, exists html w', render_to_string B path c w = (Ok html, w').
Hypothesis connect_ok :
  forall u p t w, exists c w', get_connection B u p t w = (Ok c, w').

Lemma prepare_total subject template ctx rl priority (st : state W) :
  exists m st',
    prepare_email_message subject template ctx rl priority default_attachments st
    = (Ok m, st').
Proof.
  unfold prepare_email_message, default_attachments.
  unfold bind at 1. unfold call at 1.
  destruct (render_ok ("emails/" +:+ template +:+ ".html") (platform_context ctx)
              (world st)) as (html & w1 & ->).
  unfold bind at 1.
  match goal with |- context [connection ?s] =>
    assert (Hc : exists c s', connection s = (Ok c, s'))
  end.
  { match goal with |- context [connection ?s] => set (s0 := s) end.
    destruct (_connection s0) as [c0|] eqn:Hs.
    - exists c0, s0. now apply connection_cached.
    - destruct (connect_ok (EMAIL_HOST_USER email_config)
                  (EMAIL_HOST_PASSWORD email_config) (TIMEOUT config) (world s0))
        as (c & w & Hg).
      eexists _, _. eapply connection_fresh_ok; eassumption. }
  destruct Hc as (c & s' & ->). unfold bind, emit, ret. simpl. eauto.
Qed.

Lemma mapM_prepare_total subject template ctx batch :
  forall st : state W,
    exists ms st',
      mapM (fun recipient =>
              prepare_email_message subject template ctx (inr [recipient])
                default_priority default_attachments) batch st = (Ok ms, st').
Proof.
  induction batch as [|x batch IH]; intros st; simpl.
  - unfold ret. eauto.
  - unfold bind at 1.
    destruct (prepare_total subject template ctx (inr [x]) default_priority st)
      as (m & st1 & E).
    rewrite E.
    unfold bind at 1. destruct (IH st1) as (ms & st2 & ->).
    unfold ret. eauto.
Qed.

Lemma send_batch_total template ctx subject acc batch (st : state W) :
  exists acc' st', send_batch template ctx subject acc batch st = (Ok acc', st').
Proof.
  unfold send_batch. destruct acc as [[sc fc] fr]. unfold bind at 1.
  destruct (mapM_prepare_total subject template ctx batch st) as (ms & st1 & ->).
  unfold try_except.
  match goal with |- context [match ?m st1 with _ => _ end] =>
    destruct (m st1) as [[a|e] st2] end; [eauto |].
  unfold bind, emit, ret. simpl. eauto.
Qed.

Lemma batch_loop_total template ctx subject cs :
  forall acc (st : state W),
    exists acc' st',
      foldM (send_batch template ctx subject) cs acc st = (Ok acc', st').
Proof.
  induction cs as [|c cs IH]; intros acc st; cbn [foldM].
  - unfold ret. eauto.
  - unfold bind.
    destruct (send_batch_total template ctx subject acc c st) as (acc1 & st1 & ->).
    apply IH.
Qed.

End Reliable.

(** The dicts that [send_batch_emails] returns: a recipient and an error. *)
Lemma failed_record_dom recipient e :
  dom (failed_record recipient e) = ({["recipient"; "error"]} : gset string).
Proof.
  unfold failed_record. rewrite !dom_insert_L, dom_empty_L. set_solver.
Qed.

(** What a failed record holds: the recipient under ['recipient'], the text
    of the exception under ['error'], and nothing else. *)
Lemma failed_record_entries recipient e :
  failed_record recipient e !! "recipient" = Some (VStr recipient) /\
  failed_record recipient e !! "error" = Some (VStr (str_exn e)).
Proof.
  unfold failed_record. split.
  - rewrite lookup_insert_ne by discriminate. apply lookup_insert_eq.
  - apply lookup_insert_eq.
Qed.

Lemma failures_entries sent :
  map (fun d : pydict => (d !! "recipient", d !! "error")) (failures sent) =
  flat_map (fun b : list string * option exn =>
              match snd b with
              | Some e => map (fun recipient =>
                                 (Some (VStr recipient), Some (VStr (str_exn e))))
                              (fst b)
              | None => []
              end) sent.
Proof.
  unfold failures. induction sent as [|[batch [e|]] sent IH]; simpl;
    [reflexivity | | exact IH].
  rewrite map_app, IH. f_equal.
  rewrite List.map_map. apply List.map_ext. intros recipient.
  now destruct (failed_record_entries recipient e) as [-> ->].
Qed.

Lemma failures_records sent : Forall batch_record (failures sent).
Proof.
  unfold failures. induction sent as [|[batch [e|]] sent IH]; simpl;
    [constructor | | exact IH].
  apply Forall_app. split; [| exact IH].
  apply List.Forall_forall. intros d [recipient [<- _]]%in_map_iff.
  apply failed_record_dom.
Qed.

(** C4. With a positive batch size, [send_batch_emails] hands the transport
    the consecutive chunks of the recipient list, one call per chunk and in
    the order of the list; the failed records are those of the recipients of
    the chunks whose call raised, and of no other chunk: one record for each
    recipient of such a chunk, in order, holding that recipient under
    ['recipient'], the text of the error of that call under ['error'], and
    no other key; [failure_count] is their number and
    [success_count + failure_count] is the length of the list. The function
    returns whenever the renderer and the connection factory do not raise. *)
Theorem send_batch_emails_spec template ctx recipient_list subject (st : state W) :
  (0 < BATCH_SIZE config)%Z ->
  (forall success_count failure_count failed st',
     send_batch_emails template ctx recipient_list subject st =
       (Ok (success_count, failure_count, failed), st') ->
     exists new,
       after st new st' /\
       map fst (batches_sent new) =
         chunks (Z.to_nat (BATCH_SIZE config)) recipient_list /\
       failed = failures (batches_sent new) /\
       map (fun d : pydict => (d !! "recipient", d !! "error")) failed =
         flat_map (fun b : list string * option exn =>
                     match snd b with
                     | Some e => map (fun recipient =>
                                        (Some (VStr recipient),
                                         Some (VStr (str_exn e)))) (fst b)
                     | None => []
                     end) (batches_sent new) /\
       Forall batch_record failed /\
       failure_count = length failed /\
       success_count + failure_count = length recipient_list)
  /\ concat (chunks (Z.to_nat (BATCH_SIZE config)) recipient_list) = recipient_list
  /\ ((forall path c w, exists html w',
          render_to_string B path c w = (Ok html, w')) ->
      (forall u p t w, exists c w', get_connection B u p t w = (Ok c, w')) ->
      exists r st',
        send_batch_emails template ctx recipient_list subject st = (Ok r, st')).
Proof.
  intros Hb.
  assert (Hn : 0 < Z.to_nat (BATCH_SIZE config)) by lia.
  assert (Hcat : concat (chunks (Z.to_nat (BATCH_SIZE config)) recipient_list)
                 = recipient_list)
    by (apply concat_chunks_fuel; [exact Hn | reflexivity]).
  split; [| split; [exact Hcat |]].
  - intros sc fc failed st' E.
    rewrite send_batch_emails_chunks in E by exact Hb.
    apply batch_loop in E as (new & A & Hm & Hf & Hc & Ht);
      [| apply chunks_fuel_nonempty; exact Hn].
    exists new. simpl in Hf, Hc, Ht. rewrite Hcat in Ht.
    split; [exact A |]. split; [exact Hm |]. split; [exact Hf |].
    split; [rewrite Hf; apply failures_entries |].
    split; [rewrite Hf; apply failures_records |].
    split; [now rewrite Hf | exact Ht].
  - intros Hr Hc. rewrite send_batch_emails_chunks by exact Hb.
    apply batch_loop_total; assumption.
Qed.



(** ** The retry loop *)

Lemma count_events_app f j1 j2 :
  count_events f (j1 ++ j2) = count_events f j1 + count_events f j2.
Proof. unfold count_events. now rewrite List.filter_app, length_app. Qed.

Lemma l_bind_ok {A C} (m : LM A) (f : A -> LM C) live st a live' st' :
  m live st = ((Ok a, live'), st') -> l_bind m f live st = f a live' st'.
Proof. intros H. unfold l_bind. now rewrite H. Qed.

Lemma l_bind_raise {A C} (m : LM A) (f : A -> LM C) live st e live' st' :
  m live st = ((Raise e, live'), st') ->
  l_bind m f live st = ((Raise e, live'), st').
Proof. intros H. unfold l_bind. now rewrite H. Qed.







Lemma snd_combine_seq {X} (l : list X) n : map snd (combine (seq n (length l)) l) = l.
Proof.
  revert n. induction l as [|x l IH]; intros n; simpl; [reflexivity |].
  now rewrite IH.
Qed.



(** * Further properties of the service *)

(** ** The connection and the message builder *)

(** X1. A failed access to [connection] caches nothing: the error is logged
    once and raised, [_connection] stays empty, and the next access calls
    [get_connection] again and keeps what it then returns. *)
Theorem connection_failure_not_cached (st : state W) e st1 :
  connection st = (Raise e, st1) ->
  _connection st = None /\
  _connection st1 = None /\
  journal st1 = journal st ++ [EvConnect (Some e); EvLog Error (ConnectionFailed e)] /\
  (forall c w,
     get_connection B (EMAIL_HOST_USER email_config)
       (EMAIL_HOST_PASSWORD email_config) (TIMEOUT config) (world st1) = (Ok c, w) ->
     connection st1 =
     (Ok c, Build_state (Some c) w (journal st1 ++ [EvConnect None]))).
Proof.
  intros E. destruct (_connection st) as [c0|] eqn:Hs.
  - rewrite (connection_cached st c0 Hs) in E. discriminate.
  - destruct (get_connection B (EMAIL_HOST_USER email_config)
                (EMAIL_HOST_PASSWORD email_config) (TIMEOUT config) (world st))
      as [[c1|e1] w1] eqn:Hg.
    + rewrite (connection_fresh_ok st c1 w1 Hs Hg) in E. discriminate.
    + rewrite (connection_fresh_raise st e1 w1 Hs Hg) in E.
      injection E as <- <-. simpl.
      split; [reflexivity |]. split; [reflexivity |]. split; [reflexivity |].
      intros c w Hg'. now apply connection_fresh_ok.
Qed.

Lemma attach_all_spec paths :
  forall (m : message) (st : state W) r st',
    attach_all m paths st = (r, st') ->
    _connection st' = _connection st /\
    forall m', r = Ok m' ->
      msg_subject m' = msg_subject m /\ msg_body m' = msg_body m /\
      msg_from_email m' = msg_from_email m /\ msg_to m' = msg_to m /\
      msg_connection m' = msg_connection m /\
      msg_alternatives m' = msg_alternatives m /\
      msg_attachments m' = msg_attachments m ++ paths /\
      msg_extra_headers m' = msg_extra_headers m.
Proof.
  unfold attach_all. induction paths as [|p ps IH]; intros m st r st'; cbn [foldM].
  - intros [= <- <-]. split; [reflexivity |]. intros m' [= <-].
    rewrite app_nil_r. repeat split.
  - unfold bind at 1. unfold bind at 1. unfold call at 1.
    destruct (attach_file B p (world st)) as [[[]|e] w].
    + unfold ret at 1. intros E. apply IH in E as [Hc Hm]. simpl in Hc.
      split; [exact Hc |]. intros m' Hr.
      destruct (Hm m' Hr) as (H1 & H2 & H3 & H4 & H5 & H6 & H7 & H8).
      simpl in *. rewrite <- app_assoc in H7. repeat split; assumption.
    + intros [= <- <-]. split; [reflexivity | discriminate].
Qed.

(** X2. A message built by [prepare_email_message] carries the subject given,
    the recipients as a list, the configured sender and the connection that
    the service holds from then on; its body is the rendered HTML with the
    tags stripped and the HTML itself is its one alternative; the attachments
    are the paths given, in order; and it has the header [X-Priority: 1]
    exactly when the priority is ["high"], and no header otherwise. The HTML
    is what [render_to_string] returns for the template [emails/<name>.html]
    and the updated context, in the world the call starts in. *)
Theorem prepare_email_message_fields subject template ctx rl priority attachments
        (st : state W) m st' :
  prepare_email_message subject template ctx rl priority attachments st
    = (Ok m, st') ->
  msg_subject m = subject /\
  msg_to m = as_list rl /\
  msg_from_email m = DEFAULT_FROM_EMAIL email_config /\
  _connection st' = Some (msg_connection m) /\
  msg_attachments m = match attachments with Some l => l | None => [] end /\
  msg_extra_headers m =
    (if String.eqb priority "high" then <["X-Priority" := "1"]> ∅ else ∅) /\
  exists html w,
    render_to_string B ("emails/" +:+ template +:+ ".html") (platform_context ctx)
      (world st) = (Ok html, w) /\
    msg_alternatives m = [(html, "text/html")] /\ msg_body m = strip_tags B html.
Proof.
  unfold prepare_email_message. unfold bind at 1. unfold call at 1.
  destruct (render_to_string B _ _ (world st)) as [[html|e] w1] eqn:Er;
    [| discriminate].
  unfold bind at 1.
  match goal with |- context [connection ?s] =>
    destruct (connection s) as [[c|e] st1] eqn:Ec; [| discriminate];
    destruct (connection_keeps _ _ _ Ec) as [_ K]; specialize (K c eq_refl)
  end.
  unfold bind at 1. unfold emit at 1. cbn [_connection world journal].
  unfold bind at 1.
  match goal with |- context [match ?a ?s with _ => _ end] =>
    destruct (a s) as [[m0|e] st2] eqn:Ea; [| discriminate]
  end.
  unfold ret. intros [= <- <-].
  assert (H : _connection st2 = Some c /\
              msg_subject m0 = subject /\ msg_body m0 = strip_tags B html /\
              msg_from_email m0 = DEFAULT_FROM_EMAIL email_config /\
              msg_to m0 = as_list rl /\ msg_connection m0 = c /\
              msg_alternatives m0 = [(html, "text/html")] /\
              msg_attachments m0 = match attachments with Some l => l | None => [] end /\
              msg_extra_headers m0 = ∅).
  { destruct attachments as [[|p ps]|].
    - injection Ea as <- <-. simpl. repeat split; [exact K].
    - apply attach_all_spec in Ea as [Hc Hm]. simpl in Hc.
      destruct (Hm m0 eq_refl) as (H1 & H2 & H3 & H4 & H5 & H6 & H7 & H8).
      simpl in *. rewrite Hc. repeat split; assumption.
    - injection Ea as <- <-. simpl. repeat split; [exact K]. }
  destruct H as (Hc & H1 & H2 & H3 & H4 & H5 & H6 & H7 & H8).
  destruct (String.eqb priority "high"); simpl;
    rewrite ?H8, H5; repeat split; try assumption;
    exists html, w1; (split; [reflexivity | split; assumption]).
Qed.

(** The update of the context: the four platform entries replace entries of
    the same name given by the caller; every other entry is the caller's;
    and updating twice is updating once, so the dict shared by the messages
    of a batch settles after the first. *)
Theorem platform_context_overrides (ctx : context) :
  platform_context ctx !! "site_name" = Some (platform_name email_config) /\
  platform_context ctx !! "company_address" = Some (platform_address email_config) /\
  platform_context ctx !! "support_email"
    = Some (platform_contact_email email_config) /\
  platform_context ctx !! "unsubscribe_link" = Some (unsubscribe_link email_config) /\
  (forall k, k <> "site_name" -> k <> "company_address" ->
             k <> "support_email" -> k <> "unsubscribe_link" ->
             platform_context ctx !! k = ctx !! k) /\
  platform_context (platform_context ctx) = platform_context ctx.
Proof.
  unfold platform_context. repeat split.
  - now rewrite !lookup_insert.
  - now rewrite !lookup_insert.
  - now rewrite !lookup_insert.
  - now rewrite !lookup_insert.
  - intros k H1 H2 H3 H4. rewrite !lookup_insert_ne by congruence. reflexivity.
  - apply map_eq. intros k. rewrite !lookup_insert.
    repeat case_decide; reflexivity.
Qed.


(** X3. [prepare_email_message] starts by rendering the template
    [emails/<name>.html], once, with a context that has the four platform
    entries, whatever the caller gave under those names, and the caller's
    entry under every other name. When the renderer raises, so does
    [prepare_email_message], with the same exception, and nothing else has
    happened: no connection is made and no message is built. When a message
    is returned, its body is the stripped text of what the renderer returned
    for that context, and that HTML is its alternative. *)
Theorem prepare_email_message_renders subject template ctx rl priority attachments
        (st : state W) r st' :
  prepare_email_message subject template ctx rl priority attachments st = (r, st') ->
  exists (rendered : context) o w new,
    rendered !! "site_name" = Some (platform_name email_config) /\
    rendered !! "company_address" = Some (platform_address email_config) /\
    rendered !! "support_email" = Some (platform_contact_email email_config) /\
    rendered !! "unsubscribe_link" = Some (unsubscribe_link email_config) /\
    (forall k, k <> "site_name" -> k <> "company_address" ->
               k <> "support_email" -> k <> "unsubscribe_link" ->
               rendered !! k = ctx !! k) /\
    render_to_string B ("emails/" +:+ template +:+ ".html") rendered (world st)
      = (o, w) /\
    journal st' =
      journal st ++ EvRender ("emails/" +:+ template +:+ ".html") (raised o) :: new /\
    Forall (fun e => match e with EvRender _ _ => False | _ => True end) new /\
    match o with
    | Raise e =>
        r = Raise e /\ new = [] /\ _connection st' = _connection st /\ world st' = w
    | Ok html =>
        forall m, r = Ok m ->
                  msg_body m = strip_tags B html /\
                  msg_alternatives m = [(html, "text/html")]
    end.
Proof.
  intros E.
  destruct (platform_context_overrides ctx) as (H1 & H2 & H3 & H4 & H5 & _).
  exists (platform_context ctx).
  unfold prepare_email_message in E. unfold bind at 1 in E. unfold call at 1 in E.
  destruct (render_to_string B _ _ (world st)) as [[html|e] w1] eqn:Er.
  - set (Q := fun m : message =>
                msg_body m = strip_tags B html /\
                msg_alternatives m = [(html, "text/html")]).
    set (P := fun e : event => match e with EvRender _ _ => False | _ => True end).
    match type of E with ?k ?s = _ =>
      assert (Hk : emits P Q k)
    end.
    { eapply emits_bind; [apply emits_connection; intros; exact I |]. intros c _.
      eapply emits_bind; [apply emits_emit; exact I |]. intros _ _.
      eapply emits_bind with (Q := Q).
      - destruct attachments as [[|p ps]|];
          try (apply emits_ret; split; reflexivity).
        unfold attach_all. apply emits_foldM; [| split; reflexivity].
        intros m path Hm _.
        eapply emits_bind; [apply emits_call; intros; exact I |]. intros _ _.
        apply emits_ret. exact Hm.
      - intros m Hm. apply emits_ret.
        destruct (String.eqb priority "high"); exact Hm. }
    destruct (Hk _ _ _ E) as [(new & A & F) HQ]. unfold after in A. simpl in A.
    exists (Ok html), w1, new.
    split; [exact H1 |]. split; [exact H2 |]. split; [exact H3 |].
    split; [exact H4 |]. split; [exact H5 |]. split; [reflexivity |].
    split; [rewrite A, <- app_assoc; reflexivity |].
    split; [exact F | exact HQ].
  - injection E as <- <-. exists (Raise e), w1, [].
    split; [exact H1 |]. split; [exact H2 |]. split; [exact H3 |].
    split; [exact H4 |]. split; [exact H5 |]. split; [reflexivity |].
    split; [reflexivity |]. split; [constructor |].
    repeat split.
Qed.


(** ** Single send *)

Lemma count_send_log_build to new :
  Forall (ev_build to) new -> count_events is_send_log new = 0.
Proof.
  induction 1 as [|e new He _ IH]; [reflexivity |].
  unfold count_events in *. simpl.
  destruct e as [lv lm| | | | | | | | |]; simpl in *; try exact IH; try destruct He.
  destruct lv, lm; simpl in *; try exact IH; destruct He.
Qed.

(** X4. [send_email] never raises, and each call ends with exactly one log
    entry of its own: the info entry with the number of recipients and the
    subject when it returns [True], the error entry with the exception, the
    subject, the template and the number of recipients when it returns
    [False]. *)
Theorem send_email_logs_once subject template ctx rl priority attachments async
        (st : state W) :
  exists b st' new,
    send_email subject template ctx rl priority attachments async st = (Ok b, st') /\
    after st new st' /\
    count_events is_send_log new = 1 /\
    (b = true ->
     last new = Some (EvLog Info (SentOk (length (as_list rl)) subject))) /\
    (b = false ->
     exists e,
       last new = Some (EvLog Error
                          (SendFailed e subject template (length (as_list rl))))).
Proof.
  unfold send_email, try_except.
  destruct (MAX_RECIPIENTS config <? Z.of_nat (length (as_list rl)))%Z.
  - unfold raise, bind, emit, ret. simpl.
    eexists false, _, [_]. split; [reflexivity |].
    split; [reflexivity |]. split; [reflexivity |].
    split; [discriminate | intros _; eexists; reflexivity].
  - unfold bind at 1.
    destruct (prepare_email_message subject template ctx (inr (as_list rl))
                priority attachments st) as [[m|e] st1] eqn:Ep;
      destruct (emits_prepare _ _ _ _ _ _ _ _ _ Ep) as [(n1 & A1 & F1) _];
      apply count_send_log_build in F1.
    + unfold bind at 1.
      destruct (async && email_threading_enabled email_config).
      * unfold emit at 1. unfold bind, emit, ret. simpl.
        eexists true, _, (n1 ++ [_; _]). split; [reflexivity |].
        split; [unfold after in *; simpl; rewrite A1, <- !app_assoc; reflexivity |].
        split; [rewrite count_events_app, F1; reflexivity |].
        split; [| discriminate]. intros _.
        change (n1 ++ [?a; ?b]) with (n1 ++ [a] ++ [b]).
        now rewrite app_assoc, last_snoc.
      * unfold bind at 1. unfold call at 1.
        destruct (message_send B m (world st1)) as [[n|e] w].
        -- unfold ret at 1. unfold bind, emit, ret. simpl.
           eexists true, _, (n1 ++ [_; _]). split; [reflexivity |].
           split; [unfold after in *; simpl; rewrite A1, <- !app_assoc; reflexivity |].
           split; [rewrite count_events_app, F1; reflexivity |].
           split; [| discriminate]. intros _.
           change (n1 ++ [?a; ?b]) with (n1 ++ [a] ++ [b]).
           now rewrite app_assoc, last_snoc.
        -- unfold bind, emit, ret. simpl.
           eexists false, _, (n1 ++ [_; _]). split; [reflexivity |].
           split; [unfold after in *; simpl; rewrite A1, <- !app_assoc; reflexivity |].
           split; [rewrite count_events_app, F1; reflexivity |].
           split; [discriminate |]. intros _. eexists.
           change (n1 ++ [?a; ?b]) with (n1 ++ [a] ++ [b]).
           now rewrite app_assoc, last_snoc.
    + unfold bind, emit, ret. simpl.
      eexists false, _, (n1 ++ [_]). split; [reflexivity |].
      split; [unfold after in *; simpl; rewrite A1, <- !app_assoc; reflexivity |].
      split; [rewrite count_events_app, F1; reflexivity |].
      split; [discriminate |]. intros _. eexists. now rewrite last_snoc.
Qed.

(** X5. Fire and forget: with [async_send] set and threading enabled, a
    message that could be built is handed to a started [EmailThread] and
    [send_email] returns [True] at once; the transport is not called by the
    caller, so the answer does not depend on what the transport would do. *)
Theorem send_email_fire_and_forget subject template ctx rl priority attachments
        (st : state W) m st1 :
  (Z.of_nat (length (as_list rl)) <= MAX_RECIPIENTS config)%Z ->
  email_threading_enabled email_config = true ->
  prepare_email_message subject template ctx (inr (as_list rl)) priority
    attachments st = (Ok m, st1) ->
  send_email subject template ctx rl priority attachments true st =
  (Ok true,
   Build_state (_connection st1) (world st1)
     (journal st1 ++ [EvThreadStart [m];
                      EvLog Info (SentOk (length (as_list rl)) subject)])).
Proof.
  intros Hmax Hth Ep.
  assert (Hlt : (MAX_RECIPIENTS config <? Z.of_nat (length (as_list rl)))%Z = false)
    by (apply Z.ltb_ge; exact Hmax).
  unfold send_email, try_except. rewrite Hlt. unfold bind at 1. rewrite Ep, Hth.
  unfold bind, emit, ret. simpl. now rewrite <- app_assoc.
Qed.

(** X6. When the send is synchronous ([async_send] off, or threading
    disabled) and the message could be built, [send_email] calls
    [email_message.send()] once and returns [True] exactly when that call
    does not raise; the number that [send()] returns is not looked at. *)
Theorem send_email_synchronous subject template ctx rl priority attachments async
        (st : state W) m st1 r w :
  (Z.of_nat (length (as_list rl)) <= MAX_RECIPIENTS config)%Z ->
  async && email_threading_enabled email_config = false ->
  prepare_email_message subject template ctx (inr (as_list rl)) priority
    attachments st = (Ok m, st1) ->
  message_send B m (world st1) = (r, w) ->
  send_email subject template ctx rl priority attachments async st =
  (Ok (match r with Ok _ => true | Raise _ => false end),
   Build_state (_connection st1) w
     (journal st1 ++
      [EvSend m (raised r);
       match r with
       | Ok _ => EvLog Info (SentOk (length (as_list rl)) subject)
       | Raise e => EvLog Error (SendFailed e subject template (length (as_list rl)))
       end])).
Proof.
  intros Hmax Hsync Ep Es.
  assert (Hlt : (MAX_RECIPIENTS config <? Z.of_nat (length (as_list rl)))%Z = false)
    by (apply Z.ltb_ge; exact Hmax).
  unfold send_email, try_except. rewrite Hlt. unfold bind at 1. rewrite Ep, Hsync.
  unfold bind at 1. unfold bind at 1. unfold call at 1. rewrite Es.
  destruct r as [n|e]; unfold bind, emit, ret; simpl; now rewrite <- app_assoc.
Qed.

(** X7. [EmailThread.run] never raises. It sends the messages in one call
    over the connection of the service; an exception of that call, or of
    making the connection, is logged and dropped, and without a connection
    the transport is not called. *)
Theorem EmailThread_run_never_raises emails (st : state W) :
  exists st' new,
    EmailThread_run emails st = (Ok tt, st') /\
    after st new st' /\
    ((exists pre, new = pre ++ [EvSendMessages emails None] /\
                  count_events is_transport pre = 0) \/
     (exists pre e, new = pre ++ [EvSendMessages emails (Some e);
                                  EvLog Error (ThreadFailed e)] /\
                    count_events is_transport pre = 0) \/
     (exists e, new = [EvConnect (Some e); EvLog Error (ConnectionFailed e);
                       EvLog Error (ThreadFailed e)])).
Proof.
  unfold EmailThread_run, try_except. unfold bind at 1.
  assert (Hc : (exists c pre, connection st =
                   (Ok c, Build_state (Some c) (world (snd (connection st)))
                            (journal st ++ pre)) /\
                   count_events is_transport pre = 0) \/
               (exists e, connection st =
                   (Raise e, Build_state None (world (snd (connection st)))
                               (journal st ++ [EvConnect (Some e);
                                               EvLog Error (ConnectionFailed e)])))).
  { destruct (_connection st) as [c0|] eqn:Hs.
    - left. exists c0, []. rewrite (connection_cached st c0 Hs). simpl.
      rewrite app_nil_r. destruct st; simpl in *. subst. auto.
    - destruct (get_connection B (EMAIL_HOST_USER email_config)
                  (EMAIL_HOST_PASSWORD email_config) (TIMEOUT config) (world st))
        as [[c1|e1] w1] eqn:Hg.
      + left. exists c1, [EvConnect None].
        rewrite (connection_fresh_ok st c1 w1 Hs Hg). auto.
      + right. exists e1. rewrite (connection_fresh_raise st e1 w1 Hs Hg). auto. }
  destruct Hc as [(c & pre & E & Hp) | (e & E)]; rewrite E.
  - unfold bind at 1. unfold call at 1. cbn [world _connection journal].
    destruct (send_messages B c emails _) as [[n|e] w].
    + unfold ret. eexists _, (pre ++ [_]). split; [reflexivity |].
      split; [unfold after; simpl; now rewrite app_assoc |].
      left. eauto.
    + unfold emit. eexists _, (pre ++ [_; _]). split; [reflexivity |].
      split; [unfold after; simpl; now rewrite <- !app_assoc |].
      right. left. eauto.
  - unfold emit. eexists _, [_; _; _]. split; [reflexivity |].
    split; [unfold after; simpl; now rewrite <- !app_assoc |].
    right. right. eauto.
Qed.

(** X8. [send_transactional_email] never raises, and it returns [True] only
    for an event type of its table. *)
Theorem send_transactional_email_never_raises recipient ev ctx (st : state W) :
  exists b st',
    send_transactional_email recipient ev ctx st = (Ok b, st') /\
    (b = true -> ev ∈ dom templates).
Proof.
  destruct (templates !! ev) as [template|] eqn:Ht.
  - rewrite (send_transactional_email_mapped _ _ _ _ _ Ht).
    destruct (send_email_total (transactional_subject ev) template ctx
                (inl recipient) default_priority default_attachments
                default_async_send st) as (b & st' & E).
    exists b, st'. split; [exact E |]. intros _. apply elem_of_dom. eauto.
  - unfold send_transactional_email, try_except. rewrite Ht.
    unfold bind, emit, ret. simpl. eexists false, _.
    split; [reflexivity | discriminate].
Qed.


(** ** Parallel send: the list of failures *)

(** X9. In the aggregate of [parallel_email_send], [failed_recipients] has
    one address per failed send, and each is an address of the input that the
    validator accepts. *)
Theorem parallel_email_send_failed_recipients subject template ctx recipient_list
        priority attachments sched (st : state W) r st' :
  parallel_email_send subject template ctx recipient_list priority attachments
    sched st = (Ok r, st') ->
  length (failed_recipients r) = failed_sends r /\
  Forall (fun x => In x recipient_list /\ accepted x) (failed_recipients r).
Proof.
  unfold parallel_email_send.
  destruct (THREAD_POOL_SIZE config <=? 0)%Z; [discriminate |].
  unfold bind at 1. rewrite mapM_submit.
  set (valid := List.filter validate_email recipient_list).
  pose (I := fun r : results =>
               length (failed_recipients r) = failed_sends r /\
               Forall (fun x => In x recipient_list /\ accepted x)
                      (failed_recipients r)).
  intros E.
  match type of E with foldM ?body sched ?r0 ?st0 = _ =>
    assert (H : emits (fun _ => True) I (foldM body sched r0))
  end.
  { apply emits_foldM; [| split; [reflexivity | constructor]].
    intros acc i [HI1 HI2] _.
    destruct (nth_error valid i) as [recipient|] eqn:En;
      [| now apply emits_ret].
    assert (Hr : In recipient recipient_list /\ accepted recipient).
    { apply nth_error_In in En. apply filter_In in En. exact En. }
    eapply emits_bind with (Q := fun _ => True).
    { apply emits_capture. eapply emits_weaken; [| | apply emits_send_email]; auto. }
    intros o _. destruct o as [[|]|e]; simpl.
    - apply emits_ret. split; assumption.
    - apply emits_ret. split; simpl.
      + rewrite length_app. simpl. lia.
      + apply Forall_app. split; [assumption | repeat constructor; apply Hr].
    - eapply emits_bind; [apply emits_emit; exact Logic.I |]. intros _ _.
      apply emits_ret. split; simpl.
      + rewrite length_app. simpl. lia.
      + apply Forall_app. split; [assumption | repeat constructor; apply Hr]. }
  destruct (H _ _ _ E) as [_ HQ]. exact (HQ r eq_refl).
Qed.

(** ** Batch send: degenerate input and errors that escape *)

Lemma py_range_negative_step (n : nat) (step : Z) :
  (step < 0)%Z -> py_range 0 (Z.of_nat n) step = Ok [].
Proof.
  intros Hs. unfold py_range.
  assert (E0 : (step =? 0)%Z = false) by (apply Z.eqb_neq; lia).
  assert (E1 : (0 <? step)%Z = false) by (apply Z.ltb_ge; lia).
  rewrite E0, E1.
  assert (H : ((0 - Z.of_nat n - step - 1) / - step < 1)%Z)
    by (apply Z.div_lt_upper_bound; lia).
  replace (Z.to_nat ((0 - Z.of_nat n - step - 1) / - step)) with 0 by lia.
  reflexivity.
Qed.

(** X10. The batch size is taken as it is configured: a batch size of zero
    makes [send_batch_emails] raise the [ValueError] of [range], a negative
    one makes it return [(0, 0, [])] without sending to anyone, and so does
    an empty list of recipients; none of the three touches the state. *)
Theorem send_batch_emails_degenerate template ctx recipient_list subject
        (st : state W) :
  (BATCH_SIZE config = 0%Z ->
   send_batch_emails template ctx recipient_list subject st =
   (Raise (ValueError "range() arg 3 must not be zero"), st)) /\
  ((BATCH_SIZE config < 0)%Z ->
   send_batch_emails template ctx recipient_list subject st = (Ok (0, 0, []), st)) /\
  (BATCH_SIZE config <> 0%Z ->
   send_batch_emails template ctx [] subject st = (Ok (0, 0, []), st)).
Proof.
  unfold send_batch_emails, bind, lift_outcome. repeat split.
  - intros ->. reflexivity.
  - intros Hneg. now rewrite py_range_negative_step.
  - intros Hne. destruct (Z.lt_trichotomy (BATCH_SIZE config) 0) as [Hn|[Hz|Hp]].
    + cbn [length]. now rewrite (py_range_negative_step 0 _ Hn).
    + contradiction.
    + destruct (range_slices_chunks (A:=string) [] _ Hp) as (starts & E & Hc).
      rewrite E. destruct starts; [reflexivity | discriminate Hc].
Qed.

Lemma send_batch_emails_first_raises template ctx x rest subject (st : state W) e st1 :
  (0 < BATCH_SIZE config)%Z ->
  prepare_email_message subject template ctx (inr [x]) default_priority
    default_attachments st = (Raise e, st1) ->
  send_batch_emails template ctx (x :: rest) subject st = (Raise e, st1).
Proof.
  intros Hb Ep. rewrite send_batch_emails_chunks by exact Hb.
  unfold chunks. cbn [length chunks_fuel].
  destruct (Z.to_nat (BATCH_SIZE config)) as [|k] eqn:Ek; [lia |].
  cbn [firstn foldM]. unfold bind at 1. unfold send_batch. unfold bind at 1.
  cbn [mapM]. unfold bind at 1. rewrite Ep. reflexivity.
Qed.

(** X11. [send_batch_emails] builds its messages outside the [try]: when the
    template cannot be rendered for the first recipient, the error of the
    renderer is raised to the caller, no count is returned, and nothing has
    been logged or sent. *)
Theorem send_batch_emails_render_error template ctx x rest subject (st : state W)
        e w :
  (0 < BATCH_SIZE config)%Z ->
  render_to_string B ("emails/" +:+ template +:+ ".html") (platform_context ctx)
    (world st) = (Raise e, w) ->
  send_batch_emails template ctx (x :: rest) subject st =
  (Raise e,
   Build_state (_connection st) w
     (journal st ++ [EvRender ("emails/" +:+ template +:+ ".html") (Some e)])).
Proof.
  intros Hb Hr. apply send_batch_emails_first_raises; [exact Hb |].
  unfold prepare_email_message. unfold bind at 1. unfold call at 1.
  rewrite Hr. reflexivity.
Qed.

(** X12. In [send_batch_emails] a connection that cannot be established is
    raised to the caller: the error is logged by the [connection] property
    and leaves the function from the message builder, before any batch is
    sent. *)
Theorem send_batch_emails_connection_error template ctx x rest subject
        (st : state W) html w1 e w2 :
  (0 < BATCH_SIZE config)%Z ->
  _connection st = None ->
  render_to_string B ("emails/" +:+ template +:+ ".html") (platform_context ctx)
    (world st) = (Ok html, w1) ->
  get_connection B (EMAIL_HOST_USER email_config)
    (EMAIL_HOST_PASSWORD email_config) (TIMEOUT config) w1 = (Raise e, w2) ->
  send_batch_emails template ctx (x :: rest) subject st =
  (Raise e,
   Build_state None w2
     (journal st ++ [EvRender ("emails/" +:+ template +:+ ".html") None;
                     EvConnect (Some e); EvLog Error (ConnectionFailed e)])).
Proof.
  intros Hb Hn Hr Hg. apply send_batch_emails_first_raises; [exact Hb |].
  unfold prepare_email_message. unfold bind at 1. unfold call at 1.
  rewrite Hr. unfold bind at 1.
  erewrite connection_fresh_raise; [| exact Hn | exact Hg].
  simpl. now rewrite <- app_assoc.
Qed.


(** ** Batch send: one connection for the whole run *)

Lemma connects_once_refl (st : state W) : connects_once st [] st.
Proof. split; [apply after_refl |]. split; [unfold count_events; simpl; lia | auto]. Qed.

Lemma connects_once_trans (st st1 st2 : state W) n1 n2 :
  connects_once st n1 st1 -> cached st1 -> connects_once st1 n2 st2 ->
  connects_once st (n1 ++ n2) st2.
Proof.
  intros (A1 & C1 & K1) Hc (A2 & C2 & K2).
  destruct (K2 Hc) as [Hc2 Z2].
  split; [eapply after_trans; eassumption |].
  rewrite count_events_app, Z2. split; [lia |].
  intros H. destruct (K1 H) as [_ Z1]. split; [exact Hc2 | lia].
Qed.

Lemma prepare_connects_once subject template ctx rl priority (st : state W) r st' :
  prepare_email_message subject template ctx rl priority default_attachments st
    = (r, st') ->
  exists new, connects_once st new st' /\ (raised r = None -> cached st').
Proof.
  unfold prepare_email_message, default_attachments.
  unfold bind at 1. unfold call at 1.
  destruct (render_to_string B _ _ (world st)) as [[html|e] w1].
  - unfold bind at 1.
    match goal with |- context [connection ?s] => set (s0 := s) end.
    destruct (_connection s0) as [c0|] eqn:Hs.
    + rewrite (connection_cached s0 c0 Hs).
      unfold bind, emit, ret. simpl. intros [= <- <-].
      eexists [_; _]. split; [| intros _; exists c0; exact Hs].
      split; [unfold after; simpl; now rewrite <- app_assoc |].
      split; [unfold count_events; simpl; lia |].
      intros _. split; [exists c0; exact Hs | reflexivity].
    + destruct (get_connection B (EMAIL_HOST_USER email_config)
                  (EMAIL_HOST_PASSWORD email_config) (TIMEOUT config) (world s0))
        as [[c1|e1] w2] eqn:Hg.
      * rewrite (connection_fresh_ok s0 c1 w2 Hs Hg).
        unfold bind, emit, ret. simpl. intros [= <- <-].
        eexists [_; _; _]. split; [| intros _; exists c1; reflexivity].
        split; [unfold after; simpl; now rewrite <- !app_assoc |].
        split; [unfold count_events; simpl; lia |].
        intros [c Hc]. simpl in Hs. congruence.
      * rewrite (connection_fresh_raise s0 e1 w2 Hs Hg).
        intros [= <- <-].
        eexists [_; _; _]. split; [| discriminate].
        split; [unfold after; simpl; now rewrite <- !app_assoc |].
        split; [unfold count_events; simpl; lia |].
        intros [c Hc]. simpl in Hs. congruence.
  - intros [= <- <-]. eexists [_]. split; [| discriminate].
    split; [reflexivity |]. split; [unfold count_events; simpl; lia |].
    intros Hc. split; [exact Hc | reflexivity].
Qed.

Lemma mapM_prepare_connects_once subject template ctx batch :
  forall (st : state W) r st',
    mapM (fun recipient =>
            prepare_email_message subject template ctx (inr [recipient])
              default_priority default_attachments) batch st = (r, st') ->
    exists new,
      connects_once st new st' /\ (batch <> [] -> raised r = None -> cached st').
Proof.
  induction batch as [|x batch IH]; intros st r st'; cbn [mapM].
  - intros [= <- <-]. exists []. split; [apply connects_once_refl | congruence].
  - unfold bind at 1.
    destruct (prepare_email_message subject template ctx (inr [x])
                default_priority default_attachments st) as [[m|e] st1] eqn:Ep;
      destruct (prepare_connects_once _ _ _ _ _ _ _ _ Ep) as (n1 & O1 & H1).
    + specialize (H1 eq_refl). unfold bind at 1.
      destruct (mapM _ batch st1) as [[ms|e] st2] eqn:Em;
        destruct (IH _ _ _ Em) as (n2 & O2 & _);
        intros [= <- <-]; exists (n1 ++ n2);
        (split; [eapply connects_once_trans; eassumption |]).
      * intros _ _. destruct O2 as (_ & _ & K). now apply K.
      * discriminate.
    + intros [= <- <-]. exists n1. split; [exact O1 | discriminate].
Qed.

Lemma send_batch_connects_once template ctx subject acc batch (st : state W) r st' :
  batch <> [] ->
  send_batch template ctx subject acc batch st = (r, st') ->
  exists new, connects_once st new st' /\ (raised r = None -> cached st').
Proof.
  intros Hne. unfold send_batch. destruct acc as [[sc fc] fr]. unfold bind at 1.
  destruct (mapM _ batch st) as [[ms|e] st0] eqn:Em;
    destruct (mapM_prepare_connects_once _ _ _ _ _ _ _ Em) as (n0 & O0 & H0).
  - destruct (H0 Hne eq_refl) as [c Hc].
    unfold try_except. unfold bind at 1. rewrite (connection_cached st0 c Hc).
    unfold bind at 1. unfold call at 1.
    destruct (send_messages B c ms (world st0)) as [[n|e] w].
    + unfold ret. intros [= <- <-]. exists (n0 ++ [EvSendMessages ms None]).
      split; [| intros _; exists c; exact Hc].
      eapply connects_once_trans; [exact O0 | exists c; exact Hc |].
      split; [reflexivity |]. split; [unfold count_events; simpl; lia |].
      intros _. split; [exists c; exact Hc | reflexivity].
    + unfold bind, emit, ret. simpl. intros [= <- <-].
      exists (n0 ++ [EvSendMessages ms (Some e); EvLog Error (BatchFailed batch e)]).
      split; [| intros _; exists c; exact Hc].
      eapply connects_once_trans; [exact O0 | exists c; exact Hc |].
      split; [unfold after; simpl; now rewrite <- app_assoc |].
      split; [unfold count_events; simpl; lia |].
      intros _. split; [exists c; exact Hc | reflexivity].
  - intros [= <- <-]. exists n0. split; [exact O0 | discriminate].
Qed.

Lemma batch_loop_connects_once template ctx subject cs :
  Forall (fun c => c <> []) cs ->
  forall acc (st : state W) r st',
    foldM (send_batch template ctx subject) cs acc st = (r, st') ->
    exists new, connects_once st new st'.
Proof.
  induction 1 as [|c cs Hc _ IH]; intros acc st r st'; cbn [foldM].
  - intros [= <- <-]. exists []. apply connects_once_refl.
  - unfold bind.
    destruct (send_batch template ctx subject acc c st) as [[acc1|e] st1] eqn:E1;
      destruct (send_batch_connects_once _ _ _ _ _ _ _ _ Hc E1) as (n1 & O1 & H1).
    + intros E2. destruct (IH _ _ _ _ E2) as (n2 & O2).
      exists (n1 ++ n2). eapply connects_once_trans; [exact O1 | now apply H1 | exact O2].
    + intros [= <- <-]. exists n1. exact O1.
Qed.

(** X13. A run of [send_batch_emails], whatever its outcome, calls
    [get_connection] at most once, and not at all when the service already
    holds a connection: all batches go over the one connection. *)
Theorem send_batch_emails_one_connection template ctx recipient_list subject
        (st : state W) r st' :
  (0 < BATCH_SIZE config)%Z ->
  send_batch_emails template ctx recipient_list subject st = (r, st') ->
  exists new,
    after st new st' /\
    count_events is_connect new <= 1 /\
    (cached st -> count_events is_connect new = 0).
Proof.
  intros Hb E. rewrite send_batch_emails_chunks in E by exact Hb.
  apply batch_loop_connects_once in E as (new & A & C & K);
    [| apply chunks_fuel_nonempty; lia].
  exists new. split; [exact A |]. split; [exact C |].
  intros H. now apply K.
Qed.


(** ** The retry loop: success, nothing to do, a record without recipient *)

Lemma retry_rounds_nil attempts retries delay :
  forall st : state W,
    retry_rounds attempts retries delay [] st = ((Ok tt, []), st).
Proof.
  induction attempts as [|a attempts IH]; intros st; cbn [retry_rounds l_for];
    [reflexivity |].
  unfold l_bind, l_get, l_ret. apply IH.
Qed.

(** X14. With nothing to retry, [retry_failed_emails] does nothing: for
    [retries] of zero or less, or an empty list, the list and the state are
    as before; nothing is logged and there is no sleep. *)
Theorem retry_failed_emails_nothing_to_do failed retries delay (st : state W) :
  (retries <= 0)%Z \/ failed = [] ->
  retry_failed_emails failed retries delay st = (Ok failed, st).
Proof.
  intros [Hr | ->]; unfold retry_failed_emails, retry_failed_emails_run.
  - replace (Z.to_nat retries) with 0 by lia. cbn [seq map retry_rounds].
    unfold l_ret. now rewrite snd_combine_seq.
  - cbn [length seq combine]. now rewrite retry_rounds_nil.
Qed.

Lemma retry_arguments_no_recipient (d : pydict) :
  d !! "recipient" = None -> exists e, retry_arguments d = Raise e.
Proof.
  intros H. unfold retry_arguments, getitem. rewrite H.
  destruct (d !! "subject"); [| eauto].
  destruct (d !! "template_name"); [| eauto].
  destruct (d !! "context"); eauto.
Qed.

(** X15. A record without the key ['recipient'] stops the retry loop: the
    [except] clause reads [failed['recipient']] for its log message, so the
    [KeyError] leaves [retry_failed_emails] at the first such record, here
    the first of the list, before anything is logged or sent. *)
Theorem retry_failed_emails_missing_recipient d rest retries delay (st : state W) :
  (0 < retries)%Z ->
  d !! "recipient" = None ->
  retry_failed_emails (d :: rest) retries delay st = (Raise (KeyError "recipient"), st).
Proof.
  intros Hr Hd. unfold retry_failed_emails, retry_failed_emails_run.
  destruct (Z.to_nat retries) as [|k] eqn:Ek; [lia |].
  cbn [seq map length combine retry_rounds].
  destruct (retry_arguments_no_recipient d Hd) as [e He].
  unfold l_bind at 1. unfold l_get at 1. cbn [l_for].
  unfold l_bind at 1. unfold l_bind at 1.
  unfold retry_one, l_try, retry_try. unfold l_bind at 1.
  unfold l_lift at 1. unfold lift_outcome at 1. rewrite He.
  unfold retry_except, l_bind, l_lift, lift_outcome, getitem. rewrite Hd.
  reflexivity.
Qed.

Lemma count_send_sleep_build to new :
  Forall (ev_build to) new ->
  count_events is_send new = 0 /\ count_events is_sleep new = 0.
Proof.
  induction 1 as [|e new He _ [IH1 IH2]]; [split; reflexivity |].
  unfold count_events in *. simpl.
  destruct e as [lv lm| | | | | | | | |]; simpl in *;
    try (split; assumption); destruct He.
Qed.

Lemma set_record_head i (d f : pydict) rest :
  Forall (fun p : nat * pydict => fst p <> i) rest ->
  set_record i d ((i, f) :: rest) = (i, d) :: rest.
Proof.
  intros H. unfold set_record. simpl. rewrite Nat.eqb_refl. f_equal.
  induction H as [|p rest Hp _ IH]; [reflexivity |].
  simpl. rewrite IH. apply Nat.eqb_neq in Hp. now rewrite Hp.
Qed.

Lemma list_remove_head i (d : pydict) rest : list_remove d ((i, d) :: rest) = Ok rest.
Proof. simpl. now rewrite decide_True. Qed.

Section ReliableRetry.
Hypothesis render_ok :
  forall path c w, exists html w', render_to_string B path c w = (Ok html, w').
Hypothesis connect_ok :
  forall u p t w, exists c w', get_connection B u p t w = (Ok c, w').
Hypothesis send_ok :
  forall m w, exists n w', message_send B m w = (Ok n, w').

Lemma retry_one_success attempt retries i d rest (st : state W) :
  complete_record d ->
  Forall (fun p : nat * pydict => fst p <> i) rest ->
  exists st' new,
    retry_one attempt retries (i, d) ((i, d) :: rest) st = ((Ok tt, rest), st') /\
    after st new st' /\
    count_events is_send new = 1 /\ count_events is_sleep new = 0.
Proof.
  intros (subject & template & c & recipient & Hs & Ht & Hc & Hr) Hrest.
  unfold retry_one, l_try, retry_try.
  assert (Ha : retry_arguments d = Ok (subject, template, c, recipient))
    by (unfold retry_arguments, getitem; now rewrite Hs, Ht, Hc, Hr).
  unfold l_bind at 1. unfold l_lift at 1. unfold lift_outcome at 1. rewrite Ha.
  unfold l_bind at 1. unfold l_modify at 1.
  rewrite (set_record_head _ _ _ _ Hrest).
  destruct (prepare_total render_ok connect_ok subject template c
              (inr [recipient]) default_priority st) as (m & st1 & Ep).
  destruct (emits_prepare _ _ _ _ _ _ _ _ _ Ep) as [(n1 & A1 & F1) _].
  apply count_send_sleep_build in F1 as [F1 F2].
  unfold l_bind at 1. unfold l_lift at 1. rewrite Ep.
  unfold l_bind at 1. unfold l_lift at 1. unfold call at 1.
  destruct (send_ok m (world st1)) as (n & w & ->).
  unfold l_bind at 1. unfold l_remove at 1. rewrite list_remove_head.
  unfold l_lift, emit. simpl.
  eexists _, (n1 ++ [_; _]). split; [reflexivity |].
  split; [unfold after in *; simpl; rewrite A1, <- !app_assoc; reflexivity |].
  rewrite !count_events_app, F1, F2. split; reflexivity.
Qed.

Lemma retry_pass_success attempt retries (l : list pydict) :
  Forall complete_record l ->
  forall n (st : state W),
    exists st' new,
      l_for (retry_one attempt retries) (combine (seq n (length l)) l)
        (combine (seq n (length l)) l) st = ((Ok tt, []), st') /\
      after st new st' /\
      count_events is_send new = length l /\ count_events is_sleep new = 0.
Proof.
  induction 1 as [|d l Hd _ IH]; intros n st; cbn [length seq combine l_for].
  - exists st, []. unfold l_ret. split; [reflexivity |].
    split; [apply after_refl | split; reflexivity].
  - assert (Hrest : Forall (fun p : nat * pydict => fst p <> n)
                      (combine (seq (S n) (length l)) l)).
    { apply List.Forall_forall. intros [j x] Hin. apply in_combine_l in Hin.
      apply in_seq in Hin. simpl. lia. }
    destruct (retry_one_success attempt retries n d _ st Hd Hrest)
      as (st1 & n1 & E1 & A1 & S1 & Z1).
    rewrite (l_bind_ok _ _ _ _ _ _ _ E1).
    destruct (IH (S n) st1) as (st2 & n2 & E2 & A2 & S2 & Z2).
    exists st2, (n1 ++ n2). split; [exact E2 |].
    split; [eapply after_trans; eassumption |].
    rewrite !count_events_app, S1, S2, Z1, Z2. split; reflexivity.
Qed.

(** X16. When rendering, connecting and sending do not raise, one round of
    [retry_failed_emails] is enough: every record that has a subject, a
    template name, a context and a recipient is sent once and removed, the
    list is empty at the end, and the loop does not sleep. *)
Theorem retry_failed_emails_drains failed retries delay (st : state W) :
  (0 < retries)%Z ->
  Forall complete_record failed ->
  exists st' new,
    retry_failed_emails failed retries delay st = (Ok [], st') /\
    after st new st' /\
    count_events is_send new = length failed /\
    count_events is_sleep new = 0.
Proof.
  intros Hr Hd. unfold retry_failed_emails, retry_failed_emails_run.
  destruct (Z.to_nat retries) as [|k] eqn:Ek; [lia |].
  cbn [seq map retry_rounds].
  destruct (retry_pass_success (1 + Z.of_nat 0)%Z retries failed Hd 0 st)
    as (st1 & new & E & A & S1 & Z1).
  unfold l_bind at 1. unfold l_get at 1.
  rewrite (l_bind_ok _ _ _ _ _ _ _ E).
  unfold l_bind at 1. unfold l_get at 1.
  unfold l_bind at 1. unfold l_ret at 1. rewrite retry_rounds_nil.
  exists st1, new. auto.
Qed.

End ReliableRetry.

(** ** The retry loop never raises on records that name their recipient *)








End Service.

(** ** The regex engine agrees with what the patterns denote *)

Module ReFacts.
Import Re.

Lemma rep_spec cs k : forall s lo pos,
  rep cs k lo pos s = true <->
  exists w s', s = w ++ s' /\ lo <= length w /\
               Forall (fun c => mem cs c = true) w /\
               k (pos + length w) s' = true.
Proof.
  induction s as [|c s IH]; intros lo pos; simpl.
  - rewrite andb_true_iff, Nat.eqb_eq. split.
    + intros [-> Hk]. exists [], []. simpl. rewrite Nat.add_0_r. auto.
    + intros (w & s' & Hs & Hlo & _ & Hk).
      symmetry in Hs. apply app_eq_nil in Hs as [-> ->].
      simpl in *. rewrite Nat.add_0_r in Hk. split; [lia | exact Hk].
  - rewrite orb_true_iff, !andb_true_iff, Nat.eqb_eq, IH. split.
    + intros [[Hc (w & s' & -> & Hlo & Hw & Hk)] | [-> Hk]].
      * exists (c :: w), s'. simpl. repeat split; [lia | auto |].
        replace (pos + S (length w)) with (S pos + length w) by lia. exact Hk.
      * exists [], (c :: s). simpl. rewrite Nat.add_0_r. auto.
    + intros (w & s' & Hs & Hlo & Hw & Hk). destruct w as [|c' w].
      * right. simpl in *. subst s'. rewrite Nat.add_0_r in Hk.
        split; [lia | exact Hk].
      * left. simpl in *. injection Hs as <- ->. inversion Hw; subst.
        split; [assumption |]. exists w, s'. repeat split; [lia | assumption |].
        replace (pos + S (length w)) with (S pos + length w) in Hk by lia.
        exact Hk.
Qed.

Lemma exec_spec r : forall k pos s,
  exec r k pos s = true <->
  exists pos' s', den r pos s pos' s' /\ k pos' s' = true.
Proof.
  induction r as [| |c|cs|lo cs|r1 IH1 r2 IH2]; intros k pos s; simpl.
  - rewrite andb_true_iff, Nat.eqb_eq. split.
    + intros [-> Hk]. exists 0, s. split; [constructor | exact Hk].
    + intros (p & s' & Hd & Hk). inversion Hd; subst. auto.
  - rewrite andb_true_iff. split.
    + intros [He Hk]. exists pos, s. split; [constructor; exact He | exact Hk].
    + intros (p & s' & Hd & Hk). inversion Hd; subst. auto.
  - destruct s as [|x s].
    + split; [discriminate |]. intros (p & s' & Hd & _). inversion Hd.
    + rewrite andb_true_iff, Ascii.eqb_eq. split.
      * intros [-> Hk]. exists (S pos), s. split; [constructor | exact Hk].
      * intros (p & s' & Hd & Hk). inversion Hd; subst. auto.
  - destruct s as [|x s].
    + split; [discriminate |]. intros (p & s' & Hd & _). inversion Hd.
    + rewrite andb_true_iff. split.
      * intros [Hm Hk]. exists (S pos), s. split; [constructor; exact Hm | exact Hk].
      * intros (p & s' & Hd & Hk). inversion Hd; subst. auto.
  - rewrite rep_spec. split.
    + intros (w & s' & -> & Hlo & Hw & Hk).
      exists (pos + length w), s'. split; [constructor; assumption | exact Hk].
    + intros (p & s' & Hd & Hk). inversion Hd; subst. eauto 6.
  - rewrite IH1. split.
    + intros (p1 & s1 & Hd1 & Hk). apply IH2 in Hk as (p2 & s2 & Hd2 & Hk).
      exists p2, s2. split; [econstructor; eassumption | exact Hk].
    + intros (p2 & s2 & Hd & Hk). inversion Hd; subst.
      eexists _, _. split; [eassumption |]. apply IH2. eauto.
Qed.

(** [Pattern.match] succeeds exactly on the strings that match. *)
Lemma py_match_Matches r s : py_match r s = true <-> Matches r s.
Proof.
  unfold py_match, Matches. rewrite exec_spec. split.
  - intros (p & s' & Hd & _). eauto.
  - intros (p & s' & Hd). eauto.
Qed.

End ReFacts.

(** ** The validator *)

Lemma length_chars s : length (chars s) = String.length s.
Proof. induction s as [|c s IH]; simpl; [reflexivity | now rewrite IH]. Qed.

Lemma split_before sep s : exists rest, split sep s = before sep s :: rest.
Proof.
  induction s as [|c s [rest IH]]; simpl.
  - now exists [].
  - destruct (Ascii.eqb c sep); [now eexists |].
    rewrite IH. now eexists.
Qed.

Lemma index_split_0 sep s : index (split sep s) 0 = Ok (before sep s).
Proof. destruct (split_before sep s) as [rest ->]. reflexivity. Qed.

(** The strings that match the address pattern, spelled out: a local part, an
    [@], a domain, a dot and a top-level name of two letters or more; the [$]
    of the pattern also lets one newline follow. *)
Lemma email_regex_shape (s : list ascii) :
  Re.Matches email_regex s <->
  exists local domain tld nl,
    s = local ++ "@"%char :: domain ++ "."%char :: tld ++ nl /\
    (nl = [] \/ nl = [Re.newline]) /\
    local <> [] /\ Forall local_char local /\
    domain <> [] /\ Forall domain_char domain /\
    2 <= length tld /\ Forall letter tld.
Proof.
  assert (Hl : forall c,
    Re.mem [Re.Range "a" "z"; Re.Range "A" "Z"; Re.Range "0" "9"; Re.Single ".";
            Re.Single "_"; Re.Single "%"; Re.Single "+"; Re.Single "-"] c = true
    <-> local_char c).
  { intros c. unfold local_char, Re.mem, is_lower, is_upper; simpl.
    unfold Re.code; simpl. rewrite !orb_true_iff, !Ascii.eqb_eq. intuition congruence. }
  assert (Hd : forall c,
    Re.mem [Re.Range "a" "z"; Re.Range "A" "Z"; Re.Range "0" "9"; Re.Single ".";
            Re.Single "-"] c = true <-> domain_char c).
  { intros c. unfold domain_char, Re.mem, is_lower, is_upper; simpl.
    unfold Re.code; simpl. rewrite !orb_true_iff, !Ascii.eqb_eq. intuition congruence. }
  assert (Ht : forall c,
    Re.mem [Re.Range "a" "z"; Re.Range "A" "Z"] c = true <-> letter c).
  { intros c. unfold letter, Re.mem, is_lower, is_upper; simpl.
    unfold Re.code; simpl. rewrite !orb_true_iff. intuition congruence. }
  unfold Re.Matches, email_regex. split.
  - intros (p & s' & H).
    repeat match goal with
           | X : Re.den (Re.Cat _ _) _ _ _ _ |- _ => inversion X; clear X; subst
           end.
    repeat match goal with
           | X : Re.den Re.Bol _ _ _ _ |- _ => inversion X; clear X; subst
           | X : Re.den Re.Eol _ _ _ _ |- _ => inversion X; clear X; subst
           | X : Re.den (Re.Lit _) _ _ _ _ |- _ => inversion X; clear X; subst
           | X : Re.den (Re.Rep _ _) _ _ _ _ |- _ => inversion X; clear X; subst
           end.
    match goal with
    | He : Re.at_end ?nl = true |- _ =>
        match goal with
        | |- context [?l ++ "@"%char :: ?d ++ "."%char :: ?t ++ nl] =>
            exists l, d, t, nl
        end
    end.
    repeat split; try assumption.
    + match goal with He : Re.at_end ?nl = true |- _ =>
        destruct nl as [|c [|? ?]]; simpl in He; try discriminate;
        [now left | right; apply Ascii.eqb_eq in He; now subst] end.
    + intros ->. simpl in *. lia.
    + eapply Forall_impl; [eassumption | intros c Hc; now apply Hl].
    + intros ->. simpl in *. lia.
    + eapply Forall_impl; [eassumption | intros c Hc; now apply Hd].
    + eapply Forall_impl; [eassumption | intros c Hc; now apply Ht].
  - intros (l & d & t & nl & -> & Hnl & Hl0 & HlF & Hd0 & HdF & Ht2 & HtF).
    exists (0 + length l + 1 + length d + 1 + length t), nl.
    assert (HlF' := Forall_impl _ _ _ HlF (fun c => proj2 (Hl c))).
    assert (HdF' := Forall_impl _ _ _ HdF (fun c => proj2 (Hd c))).
    assert (HtF' := Forall_impl _ _ _ HtF (fun c => proj2 (Ht c))).
    simpl in HlF', HdF', HtF'.
    eapply Re.den_cat; [constructor |].
    eapply Re.den_cat.
    { apply Re.den_rep; [destruct l; simpl; [congruence | lia] | exact HlF']. }
    eapply Re.den_cat; [constructor |].
    eapply Re.den_cat.
    { apply Re.den_rep; [destruct d; simpl; [congruence | lia] | exact HdF']. }
    eapply Re.den_cat; [constructor |].
    eapply Re.den_cat.
    { apply Re.den_rep; [exact Ht2 | exact HtF']. }
    replace (S (S (0 + length l) + length d) + length t)
      with (0 + length l + 1 + length d + 1 + length t) by lia.
    constructor. destruct Hnl as [-> | ->]; reflexivity.
Qed.

Lemma validate_email_try_re email :
  validate_email_try re_engine email =
  Ok (Re.py_match email_regex (chars email)
      && Nat.leb (String.length email) 254
      && Nat.leb (length (local_part email)) 64).
Proof.
  unfold validate_email_try, re_engine, local_part.
  rewrite index_split_0.
  destruct (Re.py_match _ _); simpl; [|reflexivity].
  destruct (Nat.leb (String.length email) 254); reflexivity.
Qed.

(** What the validator computes. [validate_email s] is true exactly when
    [s] is not empty, [re.match] finds the address pattern in it, it is at
    most 254 characters long and has at most 64 characters before its first
    [@]; whatever exception the evaluation of the pattern may raise, the
    answer is then false and nothing is raised. The pattern is read as [re]
    reads it: see [email_regex_shape]. *)
Theorem validate_email_spec (s : string) :
  (validate_email s = true <->
     s <> "" /\ Re.Matches email_regex (chars s) /\
     String.length s <= 254 /\ length (local_part s) <= 64)
  /\ (forall engine e,
        engine email_regex (chars s) = Raise e ->
        validate_email_with engine s = false).
Proof.
  split.
  - unfold validate_email, validate_email_with.
    destruct (String.eqb_spec s "") as [->|Hne].
    + split; [discriminate | intros [H _]; congruence].
    + rewrite validate_email_try_re, !andb_true_iff.
      rewrite ReFacts.py_match_Matches, !Nat.leb_le. tauto.
  - intros engine e He. unfold validate_email_with, validate_email_try.
    rewrite He. now destruct (String.eqb s "").
Qed.


Lemma well_formed_last_letter (s : list ascii) :
  well_formed_address s -> exists c rest, rev s = c :: rest /\ letter c.
Proof.
  intros (local & domain & tld & -> & _ & _ & _ & _ & Hn & Ht).
  rewrite rev_app_distr. simpl. rewrite rev_app_distr. simpl.
  destruct (rev tld) as [|c t] eqn:Er.
  - apply (f_equal (@length ascii)) in Er. rewrite length_rev in Er.
    simpl in Er. lia.
  - exists c. eexists. split; [reflexivity |].
    assert (Hin : In c tld) by (apply in_rev; rewrite Er; now left).
    rewrite List.Forall_forall in Ht. now apply Ht.
Qed.

(** Against the grammar, the validator is right on every string that does not
    end in a newline, and on one that does it answers for the string without
    that newline. *)
Lemma validate_email_grammar (s : string) :
  validate_email s = true <->
  (well_formed_address (chars s) \/
   exists s0, chars s = s0 ++ [Re.newline] /\ well_formed_address s0) /\
  String.length s <= 254 /\ length (local_part s) <= 64.
Proof.
  rewrite (proj1 (validate_email_spec s)), email_regex_shape. split.
  - intros (_ & (local & domain & tld & nl & E & [-> | ->] & H) & Hl).
    + rewrite app_nil_r in E. split; [| exact Hl]. left.
      exists local, domain, tld. now split.
    + split; [| exact Hl]. right.
      exists (local ++ "@"%char :: domain ++ "."%char :: tld). split.
      * rewrite E, <- !app_assoc. simpl. now rewrite <- !app_assoc.
      * exists local, domain, tld. now split.
  - intros [[(local & domain & tld & E & H) | (s0 & E0 & local & domain & tld & E & H)] Hl].
    + split; [| split; [| exact Hl]].
      * intros ->. simpl in E. now destruct local.
      * exists local, domain, tld, []. rewrite app_nil_r. split; [exact E |].
        split; [now left | exact H].
    + split; [| split; [| exact Hl]].
      * intros ->. simpl in E0. now destruct s0.
      * exists local, domain, tld, [Re.newline]. split.
        -- rewrite E0, E, <- !app_assoc. simpl. now rewrite <- !app_assoc.
        -- split; [now right | exact H].
Qed.

(** C1. The validator does not hold to the address grammar: the [$] of the
    pattern also matches before a newline that ends the string, where the
    end of the string itself is meant. So [validate_email] answers true for
    the address [user@example.com] followed by a newline, a string that is
    not empty, is 17 characters long and has 4 characters before its [@],
    and that the grammar rejects, its last character being no letter. *)
Theorem validate_email_accepts_trailing_newline :
  validate_email ("user@example.com" +:+ String Re.newline "") = true /\
  ~ well_formed_address (chars ("user@example.com" +:+ String Re.newline "")) /\
  String.length ("user@example.com" +:+ String Re.newline "") = 17 /\
  length (local_part ("user@example.com" +:+ String Re.newline "")) = 4.
Proof.
  split; [reflexivity |]. split; [| split; reflexivity].
  intros H. apply well_formed_last_letter in H as (c & rest & E & Hc).
  simpl in E. injection E as <- _.
  destruct Hc as [Hc | Hc]; discriminate Hc.
Qed.

(** ** The service on the scripted worlds *)

Lemma validate_email_spec_witness :
  "john.doe@company.co.uk" <> "" /\
  Re.Matches email_regex (chars "john.doe@company.co.uk") /\
  String.length "john.doe@company.co.uk" <= 254 /\
  length (local_part "john.doe@company.co.uk") <= 64.
Proof.
  apply (proj1 (proj1 (validate_email_spec "john.doe@company.co.uk"))).
  reflexivity.
Defined.

Lemma send_email_too_many_witness :
  (MAX_RECIPIENTS Demo.config < Z.of_nat (length (as_list (inr Demo.five))))%Z /\
  send_email Demo.ok Demo.config Demo.threads_off "Hi" "welcome_email" Demo.ctx
    (inr Demo.five) "medium" None true Demo.fresh =
  (Ok false,
   Build_state None 0
     [EvLog Error (SendFailed (too_many Demo.config) "Hi" "welcome_email" 5)]).
Proof.
  assert (H : (MAX_RECIPIENTS Demo.config
               < Z.of_nat (length (as_list (inr Demo.five))))%Z) by reflexivity.
  split; [exact H |].
  exact (proj1 (send_email_too_many Demo.ok Demo.config Demo.threads_off "Hi"
                  "welcome_email" Demo.ctx (inr Demo.five) "medium" None true
                  Demo.fresh H)).
Defined.

Lemma parallel_email_send_counts_witness :
  (0 < THREAD_POOL_SIZE Demo.config)%Z /\
  Permutation [1; 0] (seq 0 (length (List.filter validate_email Demo.scenario_a))) /\
  exists r st' new,
    parallel_email_send Demo.ok Demo.config Demo.threads_off "Parallel Test"
      "test_template" Demo.ctx Demo.scenario_a "medium" None [1; 0] Demo.fresh
    = (Ok r, st') /\
    total_recipients r = length Demo.scenario_a /\
    valid_recipients r = length (List.filter validate_email Demo.scenario_a) /\
    successful_sends r + failed_sends r = valid_recipients r /\
    after Demo.fresh new st' /\
    submitted new = List.filter validate_email Demo.scenario_a /\
    Forall (fun e => Forall accepted (addressees e)) new.
Proof.
  assert (H1 : (0 < THREAD_POOL_SIZE Demo.config)%Z) by reflexivity.
  assert (H2 : Permutation [1; 0]
                 (seq 0 (length (List.filter validate_email Demo.scenario_a))))
    by (vm_compute; apply perm_swap).
  split; [exact H1 |]. split; [exact H2 |].
  exact (parallel_email_send_counts Demo.ok Demo.config Demo.threads_off
           "Parallel Test" "test_template" Demo.ctx Demo.scenario_a "medium" None
           [1; 0] Demo.fresh H1 H2).
Defined.

(** Scenario A: two of three addresses are valid and both sends succeed. *)
Example parallel_scenario_a :
  fst (parallel_email_send Demo.ok Demo.config Demo.threads_off "Parallel Test"
         "test_template" Demo.ctx Demo.scenario_a "medium" None [0; 1] Demo.fresh)
  = Ok {| total_recipients := 3; valid_recipients := 2; successful_sends := 2;
          failed_sends := 0; failed_recipients := [] |}.
Proof. vm_compute. reflexivity. Qed.

(** Scenario D: five recipients in batches of two, the second send failing. *)
Example batch_scenario_d :
  chunks 2 Demo.five =
    [["a@example.com"; "b@example.com"]; ["c@example.com"; "d@example.com"];
     ["e@example.com"]] /\
  fst (send_batch_emails Demo.second_fails Demo.config Demo.threads_off
         "welcome_email" Demo.ctx Demo.five "Hello" Demo.fresh)
  = Ok (3, 2, [failed_record "c@example.com" (Foreign "SMTP error");
               failed_record "d@example.com" (Foreign "SMTP error")]) /\
  map (fun d : pydict => (d !! "recipient", d !! "error"))
    [failed_record "c@example.com" (Foreign "SMTP error");
     failed_record "d@example.com" (Foreign "SMTP error")]
  = [(Some (VStr "c@example.com"), Some (VStr "SMTP error"));
     (Some (VStr "d@example.com"), Some (VStr "SMTP error"))] /\
  map (fun d : pydict => length (map_to_list d))
    [failed_record "c@example.com" (Foreign "SMTP error");
     failed_record "d@example.com" (Foreign "SMTP error")] = [2; 2] /\
  batches_sent
    (journal (snd (send_batch_emails Demo.second_fails Demo.config
                     Demo.threads_off "welcome_email" Demo.ctx Demo.five "Hello"
                     Demo.fresh)))
  = [(["a@example.com"; "b@example.com"], None);
     (["c@example.com"; "d@example.com"], Some (Foreign "SMTP error"));
     (["e@example.com"], None)].
Proof. repeat split; vm_compute; reflexivity. Qed.

Lemma send_batch_emails_spec_witness :
  (0 < BATCH_SIZE Demo.config)%Z /\
  exists new,
    after Demo.fresh new
      (snd (send_batch_emails Demo.second_fails Demo.config Demo.threads_off
              "welcome_email" Demo.ctx Demo.five "Hello" Demo.fresh)) /\
    map fst (batches_sent new) = chunks (Z.to_nat (BATCH_SIZE Demo.config)) Demo.five /\
    [failed_record "c@example.com" (Foreign "SMTP error");
     failed_record "d@example.com" (Foreign "SMTP error")]
      = failures (batches_sent new) /\
    map (fun d : pydict => (d !! "recipient", d !! "error"))
      [failed_record "c@example.com" (Foreign "SMTP error");
       failed_record "d@example.com" (Foreign "SMTP error")] =
      flat_map (fun b : list string * option exn =>
                  match snd b with
                  | Some e => map (fun recipient =>
                                     (Some (VStr recipient),
                                      Some (VStr (str_exn e)))) (fst b)
                  | None => []
                  end) (batches_sent new) /\
    Forall batch_record
      [failed_record "c@example.com" (Foreign "SMTP error");
       failed_record "d@example.com" (Foreign "SMTP error")] /\
    2 = length [failed_record "c@example.com" (Foreign "SMTP error");
                failed_record "d@example.com" (Foreign "SMTP error")] /\
    3 + 2 = length Demo.five.
Proof.
  assert (H : (0 < BATCH_SIZE Demo.config)%Z) by reflexivity.
  split; [exact H |].
  apply (proj1 (send_batch_emails_spec Demo.second_fails Demo.config
                  Demo.threads_off "welcome_email" Demo.ctx Demo.five "Hello"
                  Demo.fresh H)).
  vm_compute. reflexivity.
Defined.

Lemma connection_idempotent_witness :
  connection Demo.ok Demo.config Demo.threads_off Demo.fresh =
    (Ok 7, Build_state (Some 7) 0 [EvConnect None]) /\
  connection Demo.ok Demo.config Demo.threads_off
    (Build_state (Some 7) 0 [EvConnect None]) =
    (Ok 7, Build_state (Some 7) 0 [EvConnect None]).
Proof.
  assert (H : connection Demo.ok Demo.config Demo.threads_off Demo.fresh =
              (Ok 7, Build_state (Some 7) 0 [EvConnect None])) by reflexivity.
  split; [exact H |].
  exact (proj1 (connection_idempotent Demo.ok Demo.config Demo.threads_off
                  Demo.fresh _ 7 H)).
Defined.

(** C7, as the claim has it, fails: in a world where no connection can be
    made, [send_email] raises nothing and answers [False]. *)
Lemma send_email_connection_error_not_raised :
  fst (connection Demo.down Demo.config Demo.threads_off Demo.fresh)
    = Raise (Foreign "connection refused") /\
  fst (send_email Demo.down Demo.config Demo.threads_off "Hi" "welcome_email"
         Demo.ctx (inl "test@example.com") "medium" None false Demo.fresh)
    = Ok false /\
  ~ (exists e st',
       send_email Demo.down Demo.config Demo.threads_off "Hi" "welcome_email"
         Demo.ctx (inl "test@example.com") "medium" None false Demo.fresh
       = (Raise e, st')).
Proof.
  split; [reflexivity |]. split; [reflexivity |].
  intros (e & st' & H).
  apply (f_equal fst) in H. vm_compute in H. discriminate.
Qed.

Lemma send_email_connection_failure_witness :
  (Z.of_nat (length (as_list (inl "test@example.com")))
   <= MAX_RECIPIENTS Demo.config)%Z /\
  _connection Demo.fresh = None /\
  send_email Demo.down Demo.config Demo.threads_off "Hi" "welcome_email"
    Demo.ctx (inl "test@example.com") "medium" None false Demo.fresh =
  (Ok false,
   Build_state None 0
     ([] ++ [EvRender "emails/welcome_email.html" None;
             EvConnect (Some (Foreign "connection refused"));
             EvLog Error (ConnectionFailed (Foreign "connection refused"));
             EvLog Error (SendFailed (Foreign "connection refused") "Hi"
                            "welcome_email" 1)])).
Proof.
  assert (H1 : (Z.of_nat (length (as_list (inl "test@example.com")))
                <= MAX_RECIPIENTS Demo.config)%Z) by (vm_compute; discriminate).
  split; [exact H1 |]. split; [reflexivity |].
  exact (send_email_connection_failure Demo.down Demo.config Demo.threads_off
           "Hi" "welcome_email" Demo.ctx (inl "test@example.com") "medium" None
           false Demo.fresh "<p>emails/welcome_email.html</p>" 0
           (Foreign "connection refused") 0 H1 eq_refl eq_refl eq_refl).
Defined.

Lemma send_transactional_email_spec_witness :
  ("unknown_event" ∉ dom templates) /\
  send_transactional_email Demo.ok Demo.config Demo.threads_off
    "test@example.com" "unknown_event" Demo.ctx Demo.fresh =
  (Ok false,
   Build_state None 0 ([] ++ [EvLog Error (UnknownType "unknown_event")])) /\
  send_transactional_email Demo.ok Demo.config Demo.threads_off
    "test@example.com" "password_reset" Demo.ctx Demo.fresh =
  send_email Demo.ok Demo.config Demo.threads_off "Waanverse - Password Reset"
    "password_reset" Demo.ctx (inl "test@example.com") "medium" None true
    Demo.fresh.
Proof.
  assert (H : "unknown_event" ∉ dom templates)
    by (apply not_elem_of_dom; reflexivity).
  split; [exact H |]. split.
  - exact (proj1 (send_transactional_email_spec Demo.ok Demo.config
                    Demo.threads_off "test@example.com" "unknown_event"
                    Demo.ctx Demo.fresh) H).
  - exact (proj1 (proj2 (send_transactional_email_spec Demo.ok Demo.config
                           Demo.threads_off "test@example.com" "password_reset"
                           Demo.ctx Demo.fresh))
             "password_reset" eq_refl).
Defined.

(** C9, as the claim has it, fails: the default of [async_send] is [True],
    and with threading enabled the transactional message is handed to a
    thread, not sent by the caller: the run differs from a synchronous
    [send_email]. *)
Lemma transactional_send_not_synchronous :
  default_async_send <> false /\
  existsb is_thread_start
    (journal (snd (send_transactional_email Demo.ok Demo.config Demo.threads_on
                     "test@example.com" "welcome" Demo.ctx Demo.fresh))) = true /\
  existsb is_send
    (journal (snd (send_transactional_email Demo.ok Demo.config Demo.threads_on
                     "test@example.com" "welcome" Demo.ctx Demo.fresh))) = false /\
  send_transactional_email Demo.ok Demo.config Demo.threads_on
    "test@example.com" "welcome" Demo.ctx Demo.fresh <>
  send_email Demo.ok Demo.config Demo.threads_on "Waanverse - Welcome"
    "welcome_email" Demo.ctx (inl "test@example.com") "medium" None false
    Demo.fresh.
Proof.
  split; [discriminate |]. split; [vm_compute; reflexivity |].
  split; [vm_compute; reflexivity |].
  intros H.
  apply (f_equal (fun p => existsb is_send (journal (snd p)))) in H.
  vm_compute in H. discriminate.
Qed.

Lemma send_transactional_email_async_witness :
  templates !! "welcome" = Some "welcome_email" /\
  send_transactional_email Demo.ok Demo.config Demo.threads_on
    "test@example.com" "welcome" Demo.ctx Demo.fresh =
  send_email Demo.ok Demo.config Demo.threads_on
    (transactional_subject "welcome") "welcome_email" Demo.ctx
    (inl "test@example.com") default_priority default_attachments true
    Demo.fresh.
Proof.
  assert (H : templates !! "welcome" = Some "welcome_email") by reflexivity.
  split; [exact H |].
  exact (proj1 (send_transactional_email_async Demo.ok Demo.config
                  Demo.threads_on "test@example.com" "welcome" Demo.ctx
                  "welcome_email" Demo.fresh H)).
Defined.

(** C5 on the code. Three records, [retries=3], every send failing: the
    three records are still in the list at the end, nine sends were tried,
    and [time.sleep] was called three times, once after each round, the last
    round included. *)
Theorem retry_three_rounds_all_failing :
  match retry_failed_emails Demo.failing Demo.config Demo.threads_off
          Demo.three_records 3 5 Demo.fresh with
  | (Ok final, st) =>
      map (fun d : pydict => d !! "recipient") final =
        [Some (VStr "a@example.com"); Some (VStr "b@example.com");
         Some (VStr "c@example.com")] /\
      count_events is_send (journal st) = 9 /\
      List.filter is_sleep (journal st) = [EvSleep 5; EvSleep 5; EvSleep 5] /\
      last (journal st) = Some (EvSleep 5)
  | (Raise _, _) => False
  end.
Proof. vm_compute. repeat split; reflexivity. Qed.


(** * Further properties of the validator *)

Lemma validate_email_shape (s : string) :
  validate_email s = true ->
  exists local domain tld nl,
    chars s = local ++ "@"%char :: domain ++ "."%char :: tld ++ nl /\
    (nl = [] \/ nl = [Re.newline]) /\
    local <> [] /\ Forall local_char local /\
    domain <> [] /\ Forall domain_char domain /\
    2 <= length tld /\ Forall letter tld.
Proof.
  unfold validate_email, validate_email_with.
  destruct (String.eqb s ""); [discriminate |].
  rewrite validate_email_try_re, !andb_true_iff. intros [[H _] _].
  now apply email_regex_shape, ReFacts.py_match_Matches.
Qed.

Lemma local_char_not_at c : local_char c -> c <> "@"%char.
Proof.
  intros H ->. destruct H as [H|[H|[H|H]]]; try discriminate H.
  simpl in H. repeat (destruct H as [H|H]; [discriminate H |]). exact H.
Qed.

Lemma domain_char_not_at c : domain_char c -> c <> "@"%char.
Proof.
  intros H ->. destruct H as [H|[H|[H|H]]]; try discriminate H.
  simpl in H. repeat (destruct H as [H|H]; [discriminate H |]). exact H.
Qed.

Lemma letter_not_at c : letter c -> c <> "@"%char.
Proof. intros H ->. destruct H as [H|H]; discriminate H. Qed.

Lemma count_occ_none (P : ascii -> Prop) (l : list ascii) :
  (forall c, P c -> c <> "@"%char) -> Forall P l ->
  count_occ ascii_dec l "@"%char = 0.
Proof.
  intros HP H. apply count_occ_not_In. intros Hin.
  eapply List.Forall_forall in H; [| exact Hin]. now apply (HP _ H).
Qed.

(** X17. An address that [validate_email] accepts has exactly one [@] and at
    least six characters; what stands before the [@] is not empty, and a dot
    follows the [@] somewhere. *)
Theorem validate_email_one_at (s : string) :
  validate_email s = true ->
  count_occ ascii_dec (chars s) "@"%char = 1 /\
  6 <= String.length s /\
  local_part s <> [] /\
  exists local rest, chars s = local ++ "@"%char :: rest /\ In "."%char rest.
Proof.
  intros H.
  destruct (validate_email_shape s H)
    as (l & d & t & nl & Hs & Hnl & Hl0 & Hl & Hd0 & Hd & Ht2 & Ht).
  assert (Cl := count_occ_none _ _ local_char_not_at Hl).
  assert (Cd := count_occ_none _ _ domain_char_not_at Hd).
  assert (Ct := count_occ_none _ _ letter_not_at Ht).
  assert (Cn : count_occ ascii_dec nl "@"%char = 0)
    by (destruct Hnl as [-> | ->]; reflexivity).
  split; [| split; [| split]].
  - rewrite Hs, count_occ_app, Cl. simpl.
    rewrite count_occ_app, Cd. simpl. rewrite count_occ_app, Ct, Cn. reflexivity.
  - rewrite <- length_chars, Hs. rewrite !length_app. simpl.
    rewrite !length_app. simpl.
    destruct l; [congruence |]. destruct d; [congruence |]. simpl.
    rewrite ?length_app. lia.
  - unfold local_part. rewrite Hs. destruct l as [|c l]; [congruence |].
    simpl. inversion Hl as [|? ? Hc _]; subst.
    apply local_char_not_at in Hc. apply Ascii.eqb_neq in Hc. rewrite Hc.
    discriminate.
  - exists l, (d ++ "."%char :: t ++ nl). split; [exact Hs |].
    apply in_or_app. right. now left.
Qed.

(** ** The further properties on the scripted worlds *)

Lemma connection_failure_not_cached_witness :
  connection Demo.down Demo.config Demo.threads_off Demo.fresh =
    (Raise (Foreign "connection refused"),
     Build_state None 0
       [EvConnect (Some (Foreign "connection refused"));
        EvLog Error (ConnectionFailed (Foreign "connection refused"))]) /\
  _connection Demo.fresh = None.
Proof.
  assert (H : connection Demo.down Demo.config Demo.threads_off Demo.fresh =
              (Raise (Foreign "connection refused"),
               Build_state None 0
                 [EvConnect (Some (Foreign "connection refused"));
                  EvLog Error (ConnectionFailed (Foreign "connection refused"))]))
    by reflexivity.
  split; [exact H |].
  exact (proj1 (connection_failure_not_cached Demo.down Demo.config
                  Demo.threads_off Demo.fresh _ _ H)).
Defined.

Lemma prepare_email_message_fields_witness :
  match prepare_email_message Demo.ok Demo.config Demo.threads_off "Hi"
          "welcome_email" Demo.ctx (inl "test@example.com") "high"
          (Some ["report.pdf"]) Demo.fresh with
  | (Ok m, st') =>
      msg_subject m = "Hi" /\
      msg_to m = ["test@example.com"] /\
      _connection st' = Some (msg_connection m) /\
      msg_attachments m = ["report.pdf"] /\
      msg_extra_headers m = <["X-Priority" := "1"]> ∅ /\
      exists html w,
        render_to_string Demo.ok "emails/welcome_email.html"
          (platform_context Demo.threads_off Demo.ctx) 0 = (Ok html, w) /\
        msg_alternatives m = [(html, "text/html")] /\
        msg_body m = strip_tags Demo.ok html
  | (Raise _, _) => False
  end.
Proof.
  destruct (prepare_email_message Demo.ok Demo.config Demo.threads_off "Hi"
              "welcome_email" Demo.ctx (inl "test@example.com") "high"
              (Some ["report.pdf"]) Demo.fresh) as [[m|e] st'] eqn:E.
  - destruct (prepare_email_message_fields Demo.ok Demo.config Demo.threads_off
                "Hi" "welcome_email" Demo.ctx (inl "test@example.com") "high"
                (Some ["report.pdf"]) Demo.fresh m st' E)
      as (H1 & H2 & _ & H4 & H5 & H6 & H7).
    split; [exact H1 |]. split; [exact H2 |]. split; [exact H4 |].
    split; [exact H5 |]. split; [exact H6 | exact H7].
  - vm_compute in E. discriminate E.
Defined.

(** A caller's [site_name] does not reach the template: the platform's
    does. *)
Example prepare_email_message_site_name :
  match fst (prepare_email_message Demo.echo Demo.config Demo.threads_off "Hi"
               "welcome_email" Demo.ctx_site (inl "test@example.com") "medium"
               None Demo.fresh) with
  | Ok m => msg_body m = "<p>TestUser at Waanverse</p>" /\
            msg_alternatives m = [("<p>TestUser at Waanverse</p>", "text/html")]
  | Raise _ => False
  end.
Proof. vm_compute. split; reflexivity. Qed.

Lemma prepare_email_message_renders_witness :
  exists (rendered : context) o w new,
    rendered !! "site_name" = Some "Waanverse" /\
    rendered !! "company_address" = Some "Kampala" /\
    rendered !! "support_email" = Some "support@waanverse.com" /\
    rendered !! "unsubscribe_link" = Some "https://waanverse.com/unsubscribe" /\
    (forall k, k <> "site_name" -> k <> "company_address" ->
               k <> "support_email" -> k <> "unsubscribe_link" ->
               rendered !! k = Demo.ctx_site !! k) /\
    render_to_string Demo.echo "emails/welcome_email.html" rendered 0 = (o, w) /\
    journal (snd (prepare_email_message Demo.echo Demo.config Demo.threads_off
                    "Hi" "welcome_email" Demo.ctx_site (inl "test@example.com")
                    "medium" None Demo.fresh)) =
      [] ++ EvRender "emails/welcome_email.html" (raised o) :: new /\
    Forall (fun e => match e with EvRender _ _ => False | _ => True end) new /\
    match o with
    | Raise e =>
        fst (prepare_email_message Demo.echo Demo.config Demo.threads_off
               "Hi" "welcome_email" Demo.ctx_site (inl "test@example.com")
               "medium" None Demo.fresh) = Raise e /\
        new = [] /\
        _connection
          (snd (prepare_email_message Demo.echo Demo.config Demo.threads_off
                  "Hi" "welcome_email" Demo.ctx_site (inl "test@example.com")
                  "medium" None Demo.fresh)) = None /\
        world
          (snd (prepare_email_message Demo.echo Demo.config Demo.threads_off
                  "Hi" "welcome_email" Demo.ctx_site (inl "test@example.com")
                  "medium" None Demo.fresh)) = w
    | Ok html =>
        forall m,
          fst (prepare_email_message Demo.echo Demo.config Demo.threads_off
                 "Hi" "welcome_email" Demo.ctx_site (inl "test@example.com")
                 "medium" None Demo.fresh) = Ok m ->
          msg_body m = html /\ msg_alternatives m = [(html, "text/html")]
    end.
Proof.
  exact (prepare_email_message_renders Demo.echo Demo.config Demo.threads_off
           "Hi" "welcome_email" Demo.ctx_site (inl "test@example.com") "medium"
           None Demo.fresh _ _ (surjective_pairing _)).
Defined.

Lemma send_email_fire_and_forget_witness :
  (Z.of_nat (length (as_list (inl "test@example.com")))
   <= MAX_RECIPIENTS Demo.config)%Z /\
  email_threading_enabled Demo.threads_on = true /\
  fst (send_email Demo.failing Demo.config Demo.threads_on "Hi" "welcome_email"
         Demo.ctx (inl "test@example.com") "medium" None true Demo.fresh)
    = Ok true.
Proof.
  assert (H1 : (Z.of_nat (length (as_list (inl "test@example.com")))
                <= MAX_RECIPIENTS Demo.config)%Z) by (vm_compute; discriminate).
  split; [exact H1 |]. split; [reflexivity |].
  destruct (prepare_email_message Demo.failing Demo.config Demo.threads_on "Hi"
              "welcome_email" Demo.ctx
              (inr (as_list (inl "test@example.com"))) "medium" None Demo.fresh)
    as [[m|e] st1] eqn:E.
  - rewrite (send_email_fire_and_forget Demo.failing Demo.config Demo.threads_on
               "Hi" "welcome_email" Demo.ctx (inl "test@example.com") "medium"
               None Demo.fresh m st1 H1 eq_refl E).
    reflexivity.
  - vm_compute in E. discriminate E.
Defined.

Lemma send_email_synchronous_witness :
  (Z.of_nat (length (as_list (inl "test@example.com")))
   <= MAX_RECIPIENTS Demo.config)%Z /\
  true && email_threading_enabled Demo.threads_off = false /\
  fst (send_email Demo.failing Demo.config Demo.threads_off "Hi" "welcome_email"
         Demo.ctx (inl "test@example.com") "medium" None true Demo.fresh)
    = Ok false.
Proof.
  assert (H1 : (Z.of_nat (length (as_list (inl "test@example.com")))
                <= MAX_RECIPIENTS Demo.config)%Z) by (vm_compute; discriminate).
  split; [exact H1 |]. split; [reflexivity |].
  destruct (prepare_email_message Demo.failing Demo.config Demo.threads_off "Hi"
              "welcome_email" Demo.ctx
              (inr (as_list (inl "test@example.com"))) "medium" None Demo.fresh)
    as [[m|e] st1] eqn:E; [| vm_compute in E; discriminate E].
  destruct (message_send Demo.failing m (world st1)) as [r w] eqn:Es.
  rewrite (send_email_synchronous Demo.failing Demo.config Demo.threads_off
             "Hi" "welcome_email" Demo.ctx (inl "test@example.com") "medium"
             None true Demo.fresh m st1 r w H1 eq_refl E Es).
  vm_compute in Es. injection Es as <- <-. reflexivity.
Defined.

Lemma parallel_email_send_failed_recipients_witness :
  match parallel_email_send Demo.failing Demo.config Demo.threads_off
          "Parallel Test" "test_template" Demo.ctx Demo.scenario_a "medium" None
          [1; 0] Demo.fresh with
  | (Ok r, _) =>
      length (failed_recipients r) = failed_sends r /\
      Forall (fun x => In x Demo.scenario_a /\ accepted x) (failed_recipients r) /\
      failed_recipients r = ["user2@example.com"; "user1@example.com"]
  | (Raise _, _) => False
  end.
Proof.
  destruct (parallel_email_send Demo.failing Demo.config Demo.threads_off
              "Parallel Test" "test_template" Demo.ctx Demo.scenario_a "medium"
              None [1; 0] Demo.fresh) as [[r|e] st'] eqn:E.
  - destruct (parallel_email_send_failed_recipients Demo.failing Demo.config
                Demo.threads_off "Parallel Test" "test_template" Demo.ctx
                Demo.scenario_a "medium" None [1; 0] Demo.fresh r st' E)
      as [H1 H2].
    split; [exact H1 |]. split; [exact H2 |].
    vm_compute in E. injection E as <- _. reflexivity.
  - vm_compute in E. discriminate E.
Defined.

Lemma send_batch_emails_degenerate_witness :
  BATCH_SIZE (Demo.config_batch 0) = 0%Z /\
  send_batch_emails Demo.ok (Demo.config_batch 0) Demo.threads_off
    "welcome_email" Demo.ctx Demo.five "Hello" Demo.fresh =
    (Raise (ValueError "range() arg 3 must not be zero"), Demo.fresh) /\
  (BATCH_SIZE (Demo.config_batch (-2)) < 0)%Z /\
  send_batch_emails Demo.ok (Demo.config_batch (-2)) Demo.threads_off
    "welcome_email" Demo.ctx Demo.five "Hello" Demo.fresh =
    (Ok (0, 0, []), Demo.fresh).
Proof.
  assert (H2 : (BATCH_SIZE (Demo.config_batch (-2)) < 0)%Z) by reflexivity.
  split; [reflexivity |]. split.
  - exact (proj1 (send_batch_emails_degenerate Demo.ok (Demo.config_batch 0)
                    Demo.threads_off "welcome_email" Demo.ctx Demo.five "Hello"
                    Demo.fresh) eq_refl).
  - split; [exact H2 |].
    exact (proj1 (proj2 (send_batch_emails_degenerate Demo.ok
                           (Demo.config_batch (-2)) Demo.threads_off
                           "welcome_email" Demo.ctx Demo.five "Hello" Demo.fresh))
             H2).
Defined.

Lemma send_batch_emails_render_error_witness :
  (0 < BATCH_SIZE Demo.config)%Z /\
  send_batch_emails Demo.no_template Demo.config Demo.threads_off "welcome_email"
    Demo.ctx Demo.five "Hello" Demo.fresh =
  (Raise (Foreign "TemplateDoesNotExist"),
   Build_state None 0
     ([] ++ [EvRender "emails/welcome_email.html"
               (Some (Foreign "TemplateDoesNotExist"))])).
Proof.
  assert (H : (0 < BATCH_SIZE Demo.config)%Z) by reflexivity.
  split; [exact H |].
  exact (send_batch_emails_render_error Demo.no_template Demo.config
           Demo.threads_off "welcome_email" Demo.ctx "a@example.com"
           (tl Demo.five) "Hello" Demo.fresh (Foreign "TemplateDoesNotExist") 0
           H eq_refl).
Defined.

Lemma send_batch_emails_connection_error_witness :
  (0 < BATCH_SIZE Demo.config)%Z /\
  _connection Demo.fresh = None /\
  send_batch_emails Demo.down Demo.config Demo.threads_off "welcome_email"
    Demo.ctx Demo.five "Hello" Demo.fresh =
  (Raise (Foreign "connection refused"),
   Build_state None 0
     ([] ++ [EvRender "emails/welcome_email.html" None;
             EvConnect (Some (Foreign "connection refused"));
             EvLog Error (ConnectionFailed (Foreign "connection refused"))])).
Proof.
  assert (H : (0 < BATCH_SIZE Demo.config)%Z) by reflexivity.
  split; [exact H |]. split; [reflexivity |].
  exact (send_batch_emails_connection_error Demo.down Demo.config
           Demo.threads_off "welcome_email" Demo.ctx "a@example.com"
           (tl Demo.five) "Hello" Demo.fresh "<p>emails/welcome_email.html</p>" 0
           (Foreign "connection refused") 0 H eq_refl eq_refl eq_refl).
Defined.

Lemma send_batch_emails_one_connection_witness :
  (0 < BATCH_SIZE Demo.config)%Z /\
  exists new,
    after Demo.fresh new
      (snd (send_batch_emails Demo.second_fails Demo.config Demo.threads_off
              "welcome_email" Demo.ctx Demo.five "Hello" Demo.fresh)) /\
    count_events is_connect new <= 1 /\
    (cached Demo.fresh -> count_events is_connect new = 0).
Proof.
  assert (H : (0 < BATCH_SIZE Demo.config)%Z) by reflexivity.
  split; [exact H |].
  exact (send_batch_emails_one_connection Demo.second_fails Demo.config
           Demo.threads_off "welcome_email" Demo.ctx Demo.five "Hello" Demo.fresh
           _ _ H (surjective_pairing _)).
Defined.

Lemma retry_failed_emails_nothing_to_do_witness :
  ((0 <= 0)%Z \/ Demo.three_records = []) /\
  retry_failed_emails Demo.failing Demo.config Demo.threads_off
    Demo.three_records 0 5 Demo.fresh = (Ok Demo.three_records, Demo.fresh).
Proof.
  assert (H : (0 <= 0)%Z \/ Demo.three_records = []) by (left; discriminate).
  split; [exact H |].
  exact (retry_failed_emails_nothing_to_do Demo.failing Demo.config
           Demo.threads_off Demo.three_records 0 5 Demo.fresh H).
Defined.

Lemma retry_failed_emails_missing_recipient_witness :
  (0 < 3)%Z /\
  (<["subject" := VStr "Hello"]> ∅ : pydict) !! "recipient" = None /\
  retry_failed_emails Demo.ok Demo.config Demo.threads_off
    ((<["subject" := VStr "Hello"]> ∅) :: Demo.three_records) 3 5 Demo.fresh =
  (Raise (KeyError "recipient"), Demo.fresh).
Proof.
  assert (H1 : (0 < 3)%Z) by reflexivity.
  assert (H2 : (<["subject" := VStr "Hello"]> ∅ : pydict) !! "recipient" = None)
    by reflexivity.
  split; [exact H1 |]. split; [exact H2 |].
  exact (retry_failed_emails_missing_recipient Demo.ok Demo.config
           Demo.threads_off _ Demo.three_records 3 5 Demo.fresh H1 H2).
Defined.

Lemma retry_failed_emails_drains_witness :
  (0 < 3)%Z /\
  Forall complete_record Demo.three_records /\
  exists st' new,
    retry_failed_emails Demo.ok Demo.config Demo.threads_off Demo.three_records
      3 5 Demo.fresh = (Ok [], st') /\
    after Demo.fresh new st' /\
    count_events is_send new = length Demo.three_records /\
    count_events is_sleep new = 0.
Proof.
  assert (H1 : (0 < 3)%Z) by reflexivity.
  assert (H2 : Forall complete_record Demo.three_records).
  { repeat constructor;
      (eexists "Hello", "welcome_email", Demo.ctx, _; repeat split; reflexivity). }
  split; [exact H1 |]. split; [exact H2 |].
  apply (retry_failed_emails_drains Demo.ok Demo.config Demo.threads_off);
    try assumption.
  - intros path c w. eexists _, _. reflexivity.
  - intros u p t w. eexists _, _. reflexivity.
  - intros m w. eexists _, _. reflexivity.
Defined.

Lemma validate_email_one_at_witness :
  validate_email "user+tag@example.com" = true /\
  count_occ ascii_dec (chars "user+tag@example.com") "@"%char = 1 /\
  6 <= String.length "user+tag@example.com".
Proof.
  assert (H : validate_email "user+tag@example.com" = true) by reflexivity.
  split; [exact H |].
  destruct (validate_email_one_at "user+tag@example.com" H) as (H1 & H2 & _).
  split; assumption.
Defined.

